(** * gen-img: the batch image-generation component

    A shallow embedding of [src/src/app.component.ts] (the Angular
    [AppComponent]): the prompt splitter, the sequential generation queue
    ([generateImages]), the derived progress percentage, the download file
    name and the archive export ([downloadAllAsZip]).

    Strings are sequences of 8-bit code units ([string]); the JavaScript
    built-ins the component calls are written out on that range.  An [async]
    method is a task that runs from one [await] to the next without
    interruption: each such stretch is one function of the component state,
    and a driver feeds it the collaborators' answers. *)

From Stdlib Require Import String Ascii List Arith ZArith QArith Lia Bool.
From Stdlib Require Import DecimalString DecimalNat SpecFloat Qpower Lqa.
From stdpp Require Import base list.

Open Scope string_scope.
Open Scope list_scope.
Open Scope nat_scope.

(** ** JavaScript string built-ins *)

Module JS.

Definition LF : ascii := ascii_of_nat 10.
Definition TAB : ascii := ascii_of_nat 9.
Definition CR : ascii := ascii_of_nat 13.

(** WhiteSpace and LineTerminator code units below 256: TAB, LF, VT, FF,
    CR, SP and NBSP.  [String.prototype.trim] and the regular expression
    class [\s] use the same set. *)
Definition isWhiteSpace (c : ascii) : bool :=
  let n := nat_of_ascii c in
  ((9 <=? n) && (n <=? 13)) || (n =? 32) || (n =? 160).

Definition isEmpty (s : string) : bool :=
  match s with EmptyString => true | String _ _ => false end.

(** A string is falsy exactly when it is empty. *)
Definition truthy (s : string) : bool := negb (isEmpty s).

Fixpoint trimStart (s : string) : string :=
  match s with
  | EmptyString => EmptyString
  | String c s' => if isWhiteSpace c then trimStart s' else s
  end.

Fixpoint trimEnd (s : string) : string :=
  match s with
  | EmptyString => EmptyString
  | String c s' =>
      let r := trimEnd s' in
      if isWhiteSpace c && isEmpty r then EmptyString else String c r
  end.

Definition trim (s : string) : string := trimEnd (trimStart s).

(** [s.split(sep)] for a separator of one code unit: the pieces between
    the occurrences of [sep]; a string without [sep] (the empty one too)
    gives one piece. *)
Fixpoint split (sep : ascii) (s : string) : list string :=
  match s with
  | EmptyString => [EmptyString]
  | String c s' =>
      if Ascii.eqb c sep then EmptyString :: split sep s'
      else match split sep s' with
           | piece :: rest => String c piece :: rest
           | [] => [String c EmptyString]
           end
  end.

(** [toLowerCase] on code units below 256: A-Z and the Latin-1 capitals
    (0xC0-0xDE without the multiplication sign 0xD7) move up by 32. *)
Definition lowerChar (c : ascii) : ascii :=
  let n := nat_of_ascii c in
  if ((65 <=? n) && (n <=? 90))
     || ((192 <=? n) && (n <=? 222) && negb (n =? 215))
  then ascii_of_nat (n + 32) else c.

Fixpoint toLowerCase (s : string) : string :=
  match s with
  | EmptyString => EmptyString
  | String c s' => String (lowerChar c) (toLowerCase s')
  end.

(** [s.replace(re, by)] with the [g] flag.  [re s] is the length of the
    match of the regular expression at the head of [s], if there is one.
    The scan goes left to right: a match is replaced by [by] and the scan
    resumes behind it, a code unit at which nothing matches is copied.
    [skip] counts the code units of the current match still to pass. *)
Fixpoint replaceAll (re : string -> option nat) (by_ : string)
    (skip : nat) (s : string) : string :=
  match s with
  | EmptyString => EmptyString
  | String c s' =>
      match skip with
      | S k => replaceAll re by_ k s'
      | O =>
          match re s with
          | Some (S k) => (by_ ++ replaceAll re by_ k s')%string
          | _ => String c (replaceAll re by_ 0 s')
          end
      end
  end.

Definition replace (re : string -> option nat) (by_ : string) (s : string)
  : string := replaceAll re by_ 0 s.

(** A character class: one code unit, when [cls] holds of it. *)
Definition reClass (cls : ascii -> bool) (s : string) : option nat :=
  match s with
  | String c _ => if cls c then Some 1 else None
  | EmptyString => None
  end.

(** The length of the longest prefix of [s] made of [cls] code units. *)
Fixpoint spanLength (cls : ascii -> bool) (s : string) : nat :=
  match s with
  | String c s' => if cls c then S (spanLength cls s') else 0
  | EmptyString => 0
  end.

(** [cls+]: greedy, at least one code unit. *)
Definition rePlus (cls : ascii -> bool) (s : string) : option nat :=
  match spanLength cls s with
  | O => None
  | n => Some n
  end.

(** [s.substring(0, n)]. *)
Definition substring0 (n : nat) (s : string) : string :=
  String.substring 0 n s.

(** A number that is a non-negative integer, in a template literal. *)
Definition numberToString (n : nat) : string :=
  NilEmpty.string_of_uint (Nat.to_uint n).

End JS.

(** ** The component state *)

Inductive AspectRatio := Ratio_1_1 | Ratio_16_9 | Ratio_9_16 | Ratio_4_3 | Ratio_3_4.

Inductive ImageModel :=
| gemini_2_5_flash_image
| gemini_3_pro_image_preview
| imagen_4_0_generate_001
| imagen_3_0_generate_001.

Inductive GenerationStatus := idle | loading | success | error.

(** [images] and [error] are optional properties: [None] is an absent one. *)
Record ImageGenerationResult := mkResult {
  prompt : string;
  status : GenerationStatus;
  images : option (list string);
  error_ : option string
}.

(** The signals of [AppComponent].  The three counters hold integers; the
    number of images per prompt is any number the input handler stored. *)
Record State := mkState {
  prompts : string;
  aspectRatio : AspectRatio;
  numberOfImages : Q;
  results : list ImageGenerationResult;
  isLoading : bool;
  isZipping : bool;
  stylePreset : string;
  model : ImageModel;
  totalQueueCount : nat;
  completedQueueCount : nat;
  currentPromptIndex : nat
}.

Definition set_results (v : list ImageGenerationResult) (s : State) : State :=
  mkState (prompts s) (aspectRatio s) (numberOfImages s) v (isLoading s)
    (isZipping s) (stylePreset s) (model s) (totalQueueCount s)
    (completedQueueCount s) (currentPromptIndex s).

Definition set_isLoading (v : bool) (s : State) : State :=
  mkState (prompts s) (aspectRatio s) (numberOfImages s) (results s) v
    (isZipping s) (stylePreset s) (model s) (totalQueueCount s)
    (completedQueueCount s) (currentPromptIndex s).

Definition set_isZipping (v : bool) (s : State) : State :=
  mkState (prompts s) (aspectRatio s) (numberOfImages s) (results s)
    (isLoading s) v (stylePreset s) (model s) (totalQueueCount s)
    (completedQueueCount s) (currentPromptIndex s).

Definition set_totalQueueCount (v : nat) (s : State) : State :=
  mkState (prompts s) (aspectRatio s) (numberOfImages s) (results s)
    (isLoading s) (isZipping s) (stylePreset s) (model s) v
    (completedQueueCount s) (currentPromptIndex s).

Definition set_completedQueueCount (v : nat) (s : State) : State :=
  mkState (prompts s) (aspectRatio s) (numberOfImages s) (results s)
    (isLoading s) (isZipping s) (stylePreset s) (model s) (totalQueueCount s)
    v (currentPromptIndex s).

Definition set_currentPromptIndex (v : nat) (s : State) : State :=
  mkState (prompts s) (aspectRatio s) (numberOfImages s) (results s)
    (isLoading s) (isZipping s) (stylePreset s) (model s) (totalQueueCount s)
    (completedQueueCount s) v.

(** ** Values, effects and the monad of one uninterrupted stretch *)

(** The values a collaborator can throw, as far as [instanceof Error] and
    [.message] tell them apart. *)
Inductive JsValue :=
| JsUndefined
| JsString (s : string)
| JsObject (props : list (string * string))
| JsError (message : string).

Definition instanceofError (v : JsValue) : bool :=
  match v with JsError _ => true | _ => false end.

Inductive Completion (A : Type) :=
| Normal (a : A)
| Throw (v : JsValue).
Arguments Normal {A} a.
Arguments Throw {A} v.

(** The arguments of one [geminiService.generateImage] call. *)
Record Request := mkRequest {
  finalPrompt : string;
  reqAspectRatio : AspectRatio;
  reqNumberOfImages : Q;
  reqModel : ImageModel
}.

(** The files of a [JSZip] object, in insertion order: name and base64 text. *)
Definition Zip := list (string * string).

Inductive Effect :=
| CallGenerateImage (req : Request)
| SetTimeout (ms : nat)
| ZipGenerateAsync (zip : Zip)
| Saved (content : Zip) (name : string)
| ConsoleError (text : string) (v : JsValue)
| LinkClick (href download : string).

Definition Js (A : Type) : Type :=
  State -> Completion A * State * list Effect.

Definition ret {A} (a : A) : Js A := fun s => (Normal a, s, []).

Definition throw {A} (v : JsValue) : Js A := fun s => (Throw v, s, []).

Definition bind {A B} (m : Js A) (f : A -> Js B) : Js B :=
  fun s =>
    match m s with
    | (Normal a, s1, e1) =>
        match f a s1 with (r, s2, e2) => (r, s2, e1 ++ e2) end
    | (Throw v, s1, e1) => (Throw v, s1, e1)
    end.

Notation "'let!' x := m 'in' k" := (bind m (fun x => k))
  (at level 10, x name, m at level 100, k at level 200).
Notation "'run' m ; k" := (bind m (fun _ => k))
  (at level 10, m at level 100, k at level 200).

Definition get : Js State := fun s => (Normal s, s, []).
Definition modify (f : State -> State) : Js unit := fun s => (Normal tt, f s, []).
Definition emit (e : Effect) : Js unit := fun s => (Normal tt, s, [e]).

(** The value an [await] yields: the promise's, or its rejection thrown. *)
Definition settle {A} (answer : Completion A) : Js A :=
  match answer with
  | Normal a => ret a
  | Throw v => throw v
  end.

(** [try body catch (e) handler]. *)
Definition try_catch {A} (body : Js A) (handler : JsValue -> Js A) : Js A :=
  fun s =>
    match body s with
    | (Normal a, s1, e1) => (Normal a, s1, e1)
    | (Throw v, s1, e1) =>
        match handler v s1 with (r, s2, e2) => (r, s2, e1 ++ e2) end
    end.

(** [try body finally fin]: [fin] runs on both ways out; when it ends
    normally the completion of [body] stands. *)
Definition try_finally {A} (body : Js A) (fin : Js unit) : Js A :=
  fun s =>
    match body s with
    | (r, s1, e1) =>
        match fin s1 with
        | (Normal _, s2, e2) => (r, s2, e1 ++ e2)
        | (Throw v, s2, e2) => (Throw v, s2, e1 ++ e2)
        end
    end.

(** ** [generateImages] *)

(** [this.prompts().trim().split('\n').filter(p => p.trim() !== '')] *)
Definition promptsToProcess (raw : string) : list string :=
  List.filter (fun p => negb (String.eqb (JS.trim p) ""))
    (JS.split JS.LF (JS.trim raw)).

(** The constants of one call, fixed before the loop starts. *)
Record Frame := mkFrame {
  framePrompts : list string;
  frameAspectRatio : AspectRatio;
  frameNumberOfImages : Q;
  stylePresetValue : string;
  frameModel : ImageModel
}.

(** Where a call of [generateImages] is suspended: at the [await] of the
    request for prompt [i], or at the [await] of the pause behind it. *)
Inductive Suspended :=
| AwaitGenerate (loc : Frame) (i : nat) (prompt_i : string) (req : Request)
| AwaitDelay (loc : Frame) (i : nat).

Inductive Progress :=
| Pending (k : Suspended)
| Finished.

(** [newResults[i] = entry] on a copy of the array.  The index is below the
    length wherever [generateImages] assigns, see [assign_in_range] below;
    beyond it JavaScript would grow the array. *)
Definition assign (i : nat) (entry : ImageGenerationResult)
    (currentResults : list ImageGenerationResult) : list ImageGenerationResult :=
  <[ i := entry ]> currentResults.

(** The head of the [for] loop with counter [i], up to the next [await],
    and line 136 when the loop is over. *)
Definition loopHead (loc : Frame) (i : nat) : Js Progress :=
  if i <? length (framePrompts loc) then
    run modify (set_currentPromptIndex (i + 1));
    let prompt_i := nth i (framePrompts loc) "" in
    let final :=
      if JS.truthy (stylePresetValue loc)
      then (prompt_i ++ ", " ++ stylePresetValue loc)%string
      else prompt_i in
    let req := mkRequest final (frameAspectRatio loc)
                 (frameNumberOfImages loc) (frameModel loc) in
    run emit (CallGenerateImage req);
    ret (Pending (AwaitGenerate loc i prompt_i req))
  else
    run modify (set_isLoading false);
    ret Finished.

(** Lines 76-99 and the first pass through the loop head. *)
Definition generateImages_start : Js Progress :=
  let! s := get in
  if isLoading s || negb (JS.truthy (JS.trim (prompts s))) then ret Finished
  else
    run modify (set_isLoading true);
    let! s := get in
    let pts := promptsToProcess (prompts s) in
    run modify (set_totalQueueCount (length pts));
    run modify (set_completedQueueCount 0);
    run modify (set_currentPromptIndex 0);
    run modify (set_results (map (fun p => mkResult p loading None None) pts));
    let! s := get in
    let loc := mkFrame pts (aspectRatio s) (numberOfImages s)
                 (stylePreset s) (model s) in
    loopHead loc 0.

Definition errorMessage (e : JsValue) : string :=
  match e with
  | JsError message => message
  | _ => "An unknown error occurred"
  end.

(** The rest of the loop body once the request for prompt [i] has settled
    with [answer]: the [try] after its [await], [catch], [finally], and the
    pause that follows every prompt but the last. *)
Definition resumeGenerate (loc : Frame) (i : nat) (prompt_i : string)
    (answer : Completion (list string)) : Js Progress :=
  run try_finally
        (try_catch
           (let! imageB64s := settle answer in
            modify (fun s => set_results
              (assign i (mkResult prompt_i success (Some imageB64s) None)
                 (results s)) s))
           (fun e =>
              modify (fun s => set_results
                (assign i (mkResult prompt_i error None (Some (errorMessage e)))
                   (results s)) s)))
        (modify (fun s => set_completedQueueCount (completedQueueCount s + 1) s));
  if (Z.of_nat i <? Z.of_nat (length (framePrompts loc)) - 1)%Z then
    run emit (SetTimeout 1000);
    ret (Pending (AwaitDelay loc i))
  else loopHead loc (i + 1).

(** After the pause: [i++] and the loop head. *)
Definition resumeDelay (loc : Frame) (i : nat) : Js Progress :=
  loopHead loc (i + 1).

(** What surrounds one call: the Generation Client, answering the request
    for prompt [i], and whatever other handlers of the page do to the
    signals while the call is suspended for the [k]-th time. *)
Record World := mkWorld {
  generateImage : nat -> Request -> Completion (list string);
  meanwhile : nat -> State -> State
}.

(** A finished call: the state it leaves, what it did, every suspension
    with the state it left the component in, and how its promise settled. *)
Record Run := mkRun {
  final : State;
  effects : list Effect;
  suspensions : list (Suspended * State);
  outcome : Completion unit
}.

Definition resume (w : World) (k : Suspended) : Js Progress :=
  match k with
  | AwaitGenerate loc i prompt_i req =>
      resumeGenerate loc i prompt_i (generateImage w i req)
  | AwaitDelay loc i => resumeDelay loc i
  end.

Fixpoint drive (fuel : nat) (w : World) (n : nat)
    (now : Completion Progress * State * list Effect) : option Run :=
  match now with
  | (Throw v, s, es) => Some (mkRun s es [] (Throw v))
  | (Normal Finished, s, es) => Some (mkRun s es [] (Normal tt))
  | (Normal (Pending k), s, es) =>
      match fuel with
      | O => None
      | S fuel' =>
          match drive fuel' w (S n) (resume w k (meanwhile w n s)) with
          | Some r =>
              Some (mkRun (final r) (es ++ effects r)
                      ((k, s) :: suspensions r) (outcome r))
          | None => None
          end
      end
  end.

(** A whole call: a batch of [N] prompts suspends [2N - 1] times. *)
Definition generateImages (w : World) (s : State) : option Run :=
  drive (2 * length (promptsToProcess (prompts s))) w 0 (generateImages_start s).

(** ** Derived progress *)

(** The counters are JavaScript numbers that hold counts; the quotient and
    the product of line 70 are IEEE binary64 operations, each rounded to
    nearest with ties to even. *)
Module Binary64.

Definition prec : Z := 53.
Definition emax : Z := 1024.

(** The double of an integer count. *)
Definition ofNat (n : nat) : spec_float :=
  binary_normalize prec emax (Z.of_nat n) 0 false.

Definition progressPercentage (s : State) : spec_float :=
  let total := totalQueueCount s in
  if total =? 0 then ofNat 0
  else SFmul prec emax
         (SFdiv prec emax (ofNat (completedQueueCount s)) (ofNat total))
         (ofNat 100).

Definition pow2 (e : Z) : Q := (2 ^ e)%Q.

(** The rational a double stands for; the infinities and NaN stand for
    none. *)
Definition toQ (x : spec_float) : option Q :=
  match x with
  | S754_zero _ => Some 0%Q
  | S754_finite s m e =>
      Some ((if s then -1 else 1) * inject_Z (Zpos m) * pow2 e)%Q
  | _ => None
  end.

End Binary64.

(** ** File names and downloads *)

(** [/[^a-z0-9\s-]/] *)
Definition notNameChar (c : ascii) : bool :=
  let n := nat_of_ascii c in
  negb (((97 <=? n) && (n <=? 122)) || ((48 <=? n) && (n <=? 57))
        || JS.isWhiteSpace c || (n =? 45)).

(** The expression of lines 159-163, repeated at lines 192-196. *)
Definition sanitizedPrompt (prompt_ : string) : string :=
  JS.substring0 50
    (JS.replace (JS.rePlus JS.isWhiteSpace) "_"
       (JS.replace (JS.reClass notNameChar) ""
          (JS.toLowerCase prompt_))).

(** Lines 165 and 198. *)
Definition filename (prompt_ : string) (index : nat) : string :=
  ((if JS.truthy (sanitizedPrompt prompt_) then sanitizedPrompt prompt_
    else "generated_image")
   ++ "_" ++ JS.numberToString (index + 1) ++ ".jpeg")%string.

Definition downloadImage (imageB64 prompt_ : string) (index : nat) : Js unit :=
  if negb (JS.truthy imageB64) then ret tt
  else emit (LinkClick imageB64 (filename prompt_ index)).

(** ** [downloadAllAsZip] *)

(** [zip.file(name, data, { base64: true })]: JSZip keeps its files in an
    object keyed by name, so a name already there gets the new data and a
    new name is added behind the others.  (The names built here contain no
    slash, so no folder entries arise.) *)
Fixpoint zipFile (name data : string) (zip : Zip) : Zip :=
  match zip with
  | [] => [(name, data)]
  | (n, d) :: rest =>
      if String.eqb n name then (name, data) :: rest
      else (n, d) :: zipFile name data rest
  end.

(** [imageB64.split(',')[1]]: [None] is [undefined]. *)
Definition base64Data (imageB64 : string) : option string :=
  JS.split "," imageB64 !! 1.

(** One pass through the inner loop body, lines 188-200. *)
Definition addImage (prompt_ : string) (i : nat) (imageB64 : string)
    (zip : Zip) : Zip :=
  match base64Data imageB64 with
  | Some data =>
      if negb (JS.truthy data) then zip
      else zipFile (filename prompt_ i) data zip
  | None => zip
  end.

(** The inner [for] loop from counter [i] on, over the images left. *)
Fixpoint addImages (prompt_ : string) (i : nat) (rest : list string)
    (zip : Zip) : Zip :=
  match rest with
  | [] => zip
  | imageB64 :: rest' => addImages prompt_ (i + 1) rest' (addImage prompt_ i imageB64 zip)
  end.

(** [r.status === 'success' && r.images && r.images.length > 0] *)
Definition isSuccessful (r : ImageGenerationResult) : bool :=
  match status r, images r with
  | success, Some imgs => 0 <? length imgs
  | _, _ => false
  end.

(** One pass through the outer loop body. *)
Definition addResult (zip : Zip) (result : ImageGenerationResult) : Zip :=
  match images result with
  | None => zip
  | Some imgs => addImages (prompt result) 0 imgs zip
  end.

(** Lines 181-202: the archive built from the Result Store. *)
Definition buildZip (rs : list ImageGenerationResult) : Zip :=
  fold_left addResult (List.filter isSuccessful rs) [].

Inductive ZipProgress :=
| AwaitArchive (zip : Zip)
| ZipFinished.

(** Lines 177-204 up to the [await].  Nothing in this part of the [try]
    block throws. *)
Definition downloadAllAsZip_start : Js ZipProgress :=
  let! s := get in
  if isZipping s then ret ZipFinished
  else
    run modify (set_isZipping true);
    let! s := get in
    let zip := buildZip (results s) in
    run emit (ZipGenerateAsync zip);
    ret (AwaitArchive zip).

(** The packaging collaborators: [zip.generateAsync] settles with the
    package or a rejection, [saveAs] returns or throws. *)
Record Packaging := mkPackaging {
  generateAsync : Zip -> Completion Zip;
  saveAs : Zip -> string -> Completion unit
}.

Definition callSaveAs (p : Packaging) (content : Zip) (name : string) : Js unit :=
  match saveAs p content name with
  | Normal _ => emit (Saved content name)
  | Throw v => throw v
  end.

(** The rest of the [try] block behind its [await], [catch] and [finally]. *)
Definition downloadAllAsZip_resume (p : Packaging) (zip : Zip) : Js unit :=
  try_finally
    (try_catch
       (let! content := settle (generateAsync p zip) in
        callSaveAs p content "generated_images.zip")
       (fun e => emit (ConsoleError "Failed to create zip file:" e)))
    (modify (set_isZipping false)).

(** A whole call; [between] is what other handlers do to the signals while
    the archive is being generated. *)
Definition downloadAllAsZip (p : Packaging) (between : State -> State)
    (s : State) : Completion unit * State * list Effect :=
  match downloadAllAsZip_start s with
  | (Normal (AwaitArchive zip), s1, e1) =>
      match downloadAllAsZip_resume p zip (between s1) with
      | (r, s2, e2) => (r, s2, e1 ++ e2)
      end
  | (Normal ZipFinished, s1, e1) => (Normal tt, s1, e1)
  | (Throw v, s1, e1) => (Throw v, s1, e1)
  end.

(** The images [downloadAllAsZip] adds to the archive: those of the
    successful entries that have a non-empty data part. *)
Definition isEligible (imageB64 : string) : bool :=
  match base64Data imageB64 with
  | Some data => JS.truthy data
  | None => false
  end.

Definition eligibleImages (rs : list ImageGenerationResult) : list string :=
  flat_map (fun r => List.filter isEligible (default [] (images r)))
    (List.filter isSuccessful rs).

(** ** The specification's wording, for comparison *)

Module Spec.

(** Prompt Splitter: trim the outer whitespace, split on newline
    boundaries, trim each line, discard the lines that are empty after
    trimming. *)
Definition splitter (raw : string) : list string :=
  List.filter (fun line => negb (JS.isEmpty line))
    (map JS.trim (JS.split JS.LF (JS.trim raw))).

(** Keep the code units [keep] holds of. *)
Fixpoint strip (keep : ascii -> bool) (s : string) : string :=
  match s with
  | EmptyString => EmptyString
  | String c s' => if keep c then String c (strip keep s') else strip keep s'
  end.

(** Every maximal run of whitespace becomes one underscore (written when
    the run ends). *)
Fixpoint collapse (s : string) : string :=
  match s with
  | EmptyString => EmptyString
  | String c s' =>
      if JS.isWhiteSpace c then
        match s' with
        | String c' _ =>
            if JS.isWhiteSpace c' then collapse s' else String "_" (collapse s')
        | EmptyString => "_"
        end
      else String c (collapse s')
  end.

Fixpoint take (n : nat) (s : string) : string :=
  match n, s with
  | S n', String c s' => String c (take n' s')
  | _, _ => EmptyString
  end.

(** The file name for a class [keep] of code units that survive:
    lowercase, strip, collapse, truncate to 50, default, suffix. *)
Definition filenameWith (keep : ascii -> bool) (prompt_ : string)
    (index : nat) : string :=
  let base := take 50 (collapse (strip keep (JS.toLowerCase prompt_))) in
  ((if String.eqb base "" then "generated_image" else base)
   ++ "_" ++ JS.numberToString (index + 1) ++ ".jpeg")%string.

Definition isLowerOrDigit (c : ascii) : bool :=
  let n := nat_of_ascii c in
  ((97 <=? n) && (n <=? 122)) || ((48 <=? n) && (n <=? 57)).

(** The class [[a-z0-9 -]] as written: letters, digits, the space and the
    hyphen. *)
Definition keepWritten (c : ascii) : bool :=
  isLowerOrDigit c || Ascii.eqb c " " || Ascii.eqb c "-".

(** The same class with every whitespace code unit in place of the
    space. *)
Definition keepWhitespace (c : ascii) : bool :=
  isLowerOrDigit c || JS.isWhiteSpace c || Ascii.eqb c "-".

Definition filenameWritten := filenameWith keepWritten.
Definition filenameAmended := filenameWith keepWhitespace.

(** Progress: Percentage = completed/total x 100, defined as 0 when total
    is 0. *)
Definition percentage (completed total : nat) : Q :=
  if total =? 0 then 0%Q
  else (inject_Z (Z.of_nat completed) / inject_Z (Z.of_nat total) * 100)%Q.

(** The message a failure carries, if it carries one. *)
Definition carriedMessage (v : JsValue) : option string :=
  match v with
  | JsError message => if JS.isEmpty message then None else Some message
  | _ => None
  end.

(** On failure: the extracted message, or a generic unknown-error string
    if the failure carries no message. *)
Definition errorText (v : JsValue) : string :=
  default "An unknown error occurred" (carriedMessage v).

End Spec.

(** A string made of whitespace only (the empty string included). *)
Fixpoint isBlank (s : string) : bool :=
  match s with
  | EmptyString => true
  | String c s' => JS.isWhiteSpace c && isBlank s'
  end.

(** A prompt every code unit of which the first [replace] removes. *)
Fixpoint allStripped (s : string) : bool :=
  match s with
  | EmptyString => true
  | String c s' => notNameChar (JS.lowerChar c) && allStripped s'
  end.

Definition newline : string := String JS.LF "".
Definition tab : string := String JS.TAB "".

(** The signals as the component creates them (lines 45-57). *)
Definition initialState : State :=
  mkState
    ("A photorealistic portrait of a pensive android in a neon-lit alley."
     ++ newline
     ++ "A majestic fantasy castle perched on a floating island at sunrise."
     ++ newline
     ++ "A cute, fluffy red panda enjoying a bowl of ramen noodles.")%string
    Ratio_1_1 1 [] false false "" gemini_2_5_flash_image 0 0 0.

(** ** Vocabulary of the queue's properties *)

(** The effective prompt in the specification's words: the raw prompt, and
    behind it a comma, a space and the preset when there is a preset. *)
Definition effectivePrompt (preset raw : string) : string :=
  if String.eqb preset "" then raw else (raw ++ ", " ++ preset)%string.

(** The request the batch started in state [s] makes for the prompt [raw]. *)
Definition requestOf (s : State) (raw : string) : Request :=
  mkRequest (effectivePrompt (stylePreset s) raw) (aspectRatio s)
    (numberOfImages s) (model s).

(** The constants a batch started in state [s] fixes, and the state its
    initialisation (lines 80-92) leaves. *)
Definition frameOf (s : State) : Frame :=
  mkFrame (promptsToProcess (prompts s)) (aspectRatio s) (numberOfImages s)
    (stylePreset s) (model s).

Definition initOf (s : State) : State :=
  let pts := promptsToProcess (prompts s) in
  set_results (map (fun p => mkResult p loading None None) pts)
    (set_currentPromptIndex 0
       (set_completedQueueCount 0
          (set_totalQueueCount (length pts) (set_isLoading true s)))).

(** The entry a prompt ends with, given how its request settled. *)
Definition settled (raw : string) (answer : Completion (list string))
    : ImageGenerationResult :=
  match answer with
  | Normal imageB64s => mkResult raw success (Some imageB64s) None
  | Throw e => mkResult raw error None (Some (errorMessage e))
  end.

(** The request the loop head builds for position [i]. *)
Definition requestAt (loc : Frame) (i : nat) : Request :=
  let p := nth i (framePrompts loc) "" in
  mkRequest
    (if JS.truthy (stylePresetValue loc)
     then (p ++ ", " ++ stylePresetValue loc)%string else p)
    (frameAspectRatio loc) (frameNumberOfImages loc) (frameModel loc).

(** The state behind [try], [catch] and [finally] of position [i]. *)
Definition afterSettle (i : nat) (p : string)
    (answer : Completion (list string)) (s : State) : State :=
  set_completedQueueCount (completedQueueCount s + 1)
    (set_results (assign i (settled p answer) (results s)) s).

(** The Result Store of a batch [pts] whose first [i] prompts have settled
    with the answers [ans] gives. *)
Definition storeAfter (ans : nat -> string -> Completion (list string))
    (pts : list string) (i : nat) : list ImageGenerationResult :=
  imap (fun j p => settled p (ans j p)) (take i pts)
  ++ map (fun p => mkResult p loading None None) (drop i pts).

(** Other handlers leave the Result Store, the busy flag and the queue
    counters alone while a batch runs. *)
Definition quiet (w : World) : Prop :=
  forall n s,
    results (meanwhile w n s) = results s
    /\ isLoading (meanwhile w n s) = isLoading s
    /\ totalQueueCount (meanwhile w n s) = totalQueueCount s
    /\ completedQueueCount (meanwhile w n s) = completedQueueCount s.

(** The Generation Client requests among the effects, in order. *)
Fixpoint requestsOf (es : list Effect) : list Request :=
  match es with
  | [] => []
  | CallGenerateImage req :: es' => req :: requestsOf es'
  | _ :: es' => requestsOf es'
  end.

(** The prompt positions whose request a call awaited, in order. *)
Fixpoint awaitedRequests (ks : list (Suspended * State)) : list nat :=
  match ks with
  | [] => []
  | (AwaitGenerate _ i _ _, _) :: ks' => i :: awaitedRequests ks'
  | (AwaitDelay _ _, _) :: ks' => awaitedRequests ks'
  end.

(** What a suspension of a batch of [N] prompts shows of the queue: the
    busy flag is set, and the completed count is the number of prompts
    settled so far, not yet [N]. *)
Definition midBatch (N : nat) (obs : Suspended * State) : Prop :=
  let s := snd obs in
  isLoading s = true /\ totalQueueCount s = N /\ completedQueueCount s < N
  /\ match fst obs with
     | AwaitGenerate _ i _ _ => completedQueueCount s = i
     | AwaitDelay _ i => completedQueueCount s = i + 1
     end.

(** The answers the Generation Client of [w] gives a batch started in [s]. *)
Definition answers (w : World) (s : State) (j : nat) (raw : string)
    : Completion (list string) :=
  generateImage w j (requestOf s raw).

(** At a suspension the Result Store holds the settled entries of the
    prompts counted as completed, and a loading entry for every other. *)
Definition storeInStep (w : World) (s0 : State) (obs : Suspended * State)
    : Prop :=
  results (snd obs)
  = storeAfter (answers w s0) (promptsToProcess (prompts s0))
      (completedQueueCount (snd obs)).

(** What holds of a run of the loop that entered its head at position [i]
    with [d] prompts left, for the batch started in [s0]. *)
Definition loopDone (w : World) (s0 : State) (i d : nat) (r : Run) : Prop :=
  let pts := promptsToProcess (prompts s0) in
  let N := length pts in
  isLoading (final r) = false
  /\ totalQueueCount (final r) = N
  /\ completedQueueCount (final r) = N
  /\ results (final r) = storeAfter (answers w s0) pts N
  /\ outcome r = Normal tt
  /\ requestsOf (effects r) = map (requestOf s0) (drop i pts)
  /\ awaitedRequests (suspensions r) = seq i d
  /\ Forall (midBatch N) (suspensions r)
  /\ Forall (storeInStep w s0) (suspensions r)
  /\ length (suspensions r) = 2 * d - 1
  /\ (forall j obs,
        suspensions r !! j = Some obs ->
        completedQueueCount (snd obs) = i + (j + 1) / 2).

(** The failure of the packaging of [zip], if it fails: a rejected
    [generateAsync], or a throwing [saveAs]. *)
Definition archiveFailure (p : Packaging) (zip : Zip) : option JsValue :=
  match generateAsync p zip with
  | Throw v => Some v
  | Normal content =>
      match saveAs p content "generated_images.zip" with
      | Throw v => Some v
      | Normal _ => None
      end
  end.

(** What the second stretch of [downloadAllAsZip] does besides clearing
    the flag: it saves the package, or logs the failure. *)
Definition archiveReport (p : Packaging) (zip : Zip) : list Effect :=
  match generateAsync p zip with
  | Throw v => [ConsoleError "Failed to create zip file:" v]
  | Normal content =>
      match saveAs p content "generated_images.zip" with
      | Throw v => [ConsoleError "Failed to create zip file:" v]
      | Normal _ => [Saved content "generated_images.zip"]
      end
  end.

(** ** Sample surroundings *)

Definition catDogText : string := ("a cat" ++ newline ++ "a dog")%string.

Definition catDogState : State :=
  mkState catDogText Ratio_1_1 1 [] false false "" gemini_2_5_flash_image 0 0 0.

(** A Generation Client that has an image for the cat and no quota left
    for the dog. *)
Definition catDogClient (j : nat) (req : Request) : Completion (list string) :=
  if String.eqb (finalPrompt req) "a cat"
  then Normal ["data:image/jpeg;base64,AAA"]
  else Throw (JsError "quota exceeded").

(** A user who rewrites the prompt text and picks a style preset while the
    batch is running. *)
Definition restyle (s : State) : State :=
  mkState "a bird" (aspectRatio s) (numberOfImages s) (results s)
    (isLoading s) (isZipping s)
    "watercolor painting, soft edges, artistic, bleeding colors, wet-on-wet"
    (model s) (totalQueueCount s) (completedQueueCount s)
    (currentPromptIndex s).

Definition catDogWorld : World := mkWorld catDogClient (fun _ => restyle).

(** The same batch with the oil painting preset chosen, and a client that
    throws a bare string. *)
Definition paintedState : State :=
  mkState catDogText Ratio_16_9 2 [] false false
    "oil painting style, textured canvas, impasto brushstrokes, classical art"
    imagen_4_0_generate_001 0 0 0.

Definition stringThrower : World :=
  mkWorld (fun _ _ => Throw (JsString "rate limited")) (fun _ => restyle).

(** A packaging that produces the package and saves it, and one whose
    [generateAsync] rejects. *)
Definition packagingWorks : Packaging :=
  mkPackaging (fun zip => Normal zip) (fun _ _ => Normal tt).

Definition packagingFails : Packaging :=
  mkPackaging (fun _ => Throw (JsError "Invalid base64 input"))
    (fun _ _ => Normal tt).

(** An idle component that shows an earlier batch and whose prompt box
    holds whitespace only. *)
Definition blankState : State :=
  mkState ("  " ++ newline ++ tab)%string Ratio_1_1 1
    [ mkResult "a cat" success (Some ["data:image/jpeg;base64,AAA"]) None ]
    false false "" gemini_2_5_flash_image 1 1 1.

(** Two successful prompts that differ in a stripped character only. *)
Definition twinStore : list ImageGenerationResult :=
  [ mkResult "a cat!" success (Some ["data:image/jpeg;base64,AAA"]) None;
    mkResult "a cat?" success (Some ["data:image/jpeg;base64,BBB"]) None ].

(** A component whose Result Store holds the two of them. *)
Definition twinState : State :=
  mkState catDogText Ratio_1_1 1 twinStore false false ""
    gemini_2_5_flash_image 2 2 2.

(** A component with the given queue counters. *)
Definition withCounters (completed total : nat) : State :=
  set_completedQueueCount completed (set_totalQueueCount total initialState).

(** ** The other members of the component *)

Definition set_numberOfImages (v : Q) (s : State) : State :=
  mkState (prompts s) (aspectRatio s) v (results s) (isLoading s)
    (isZipping s) (stylePreset s) (model s) (totalQueueCount s)
    (completedQueueCount s) (currentPromptIndex s).

(** [hasSuccessfulImages] (line 66): the test of [some] is the one line 182
    filters with. *)
Definition hasSuccessfulImages (s : State) : bool :=
  existsb isSuccessful (results s).

(** [Math.max] and [Math.min] of two numbers that are not NaN. *)
Definition mathMax (a b : Q) : Q := if Qle_bool a b then b else a.
Definition mathMin (a b : Q) : Q := if Qle_bool a b then a else b.

(** [onNumberOfImagesChange] (lines 139-151).  [valueAsNumber] of an input
    element is a finite number or NaN; [None] is NaN. *)
Definition onNumberOfImagesChange (valueAsNumber : option Q) : Js unit :=
  match valueAsNumber with
  | None => modify (set_numberOfImages 1)
  | Some value =>
      let clampedValue := mathMax 1 (mathMin 4 value) in
      modify (set_numberOfImages clampedValue)
  end.

(** The methods of the component a page can call while a batch is
    suspended, each as far as it runs without interruption. *)
Inductive Handler :=
| NumberOfImagesChange (valueAsNumber : option Q)
| DownloadImage (imageB64 prompt_ : string) (index : nat)
| DownloadAllAsZipStart
| DownloadAllAsZipResume (p : Packaging) (zip : Zip)
| GenerateImagesAgain.

Definition handle (h : Handler) (s : State) : State :=
  match h with
  | NumberOfImagesChange v => snd (fst (onNumberOfImagesChange v s))
  | DownloadImage imageB64 prompt_ index =>
      snd (fst (downloadImage imageB64 prompt_ index s))
  | DownloadAllAsZipStart => snd (fst (downloadAllAsZip_start s))
  | DownloadAllAsZipResume p zip => snd (fst (downloadAllAsZip_resume p zip s))
  | GenerateImagesAgain => snd (fst (generateImages_start s))
  end.

Definition handleAll (hs : list Handler) (s : State) : State :=
  fold_left (fun t h => handle h t) hs s.

(** ** Vocabulary of the further properties *)

(** The requests of a batch with the pause between two of them. *)
Fixpoint paced (reqs : list Request) : list Effect :=
  match reqs with
  | [] => []
  | req :: rest =>
      CallGenerateImage req
        :: match rest with
           | [] => []
           | _ :: _ => SetTimeout 1000 :: paced rest
           end
  end.

(** What a suspension shows of the loop's own variables, for the batch
    started in [s0]. *)
Definition inLoop (s0 : State) (obs : Suspended * State) : Prop :=
  match fst obs with
  | AwaitGenerate loc i p req =>
      loc = frameOf s0
      /\ promptsToProcess (prompts s0) !! i = Some p
      /\ req = requestOf s0 p
      /\ currentPromptIndex (snd obs) = i + 1
  | AwaitDelay loc i =>
      loc = frameOf s0 /\ i + 1 < length (promptsToProcess (prompts s0))
  end.

(** An entry that has left the loading status: a success with its images
    and no error text, or an error with its text and no images. *)
Definition isSettled (r : ImageGenerationResult) : bool :=
  match status r, images r, error_ r with
  | success, Some _, None => true
  | error, None, Some _ => true
  | _, _, _ => false
  end.

(** [lines.join('\n')]. *)
Fixpoint joinLines (lines : list string) : string :=
  match lines with
  | [] => ""
  | [line] => line
  | line :: rest => (line ++ newline ++ joinLines rest)%string
  end.

Fixpoint allChars (f : ascii -> bool) (s : string) : bool :=
  match s with
  | EmptyString => true
  | String c s' => f c && allChars f s'
  end.

(** A prompt typed on a line of its own: not empty, nothing to trim, no
    line break inside. *)
Definition cleanLine (line : string) : bool :=
  negb (JS.isEmpty line) && String.eqb (JS.trim line) line
  && allChars (fun c => negb (Ascii.eqb c JS.LF)) line.

(** The code units of a name that needs no quoting: a-z, 0-9, the
    underscore, the hyphen and the dot. *)
Definition safeChar (c : ascii) : bool :=
  let n := nat_of_ascii c in
  ((97 <=? n) && (n <=? 122)) || ((48 <=? n) && (n <=? 57))
  || (n =? 95) || (n =? 45) || (n =? 46).

(** An archive file that comes from the store [rs]: the data part of image
    [i] of a successful entry, under that entry's name for [i]. *)
Definition fromStore (rs : list ImageGenerationResult)
    (file : string * string) : Prop :=
  exists r imgs i imageB64,
    In r rs /\ isSuccessful r = true /\ images r = Some imgs
    /\ imgs !! i = Some imageB64
    /\ base64Data imageB64 = Some (snd file) /\ JS.truthy (snd file) = true
    /\ fst file = filename (prompt r) i.

(** Two states with the same prompt text and generation options. *)
Definition sameInput (s t : State) : Prop :=
  prompts s = prompts t /\ aspectRatio s = aspectRatio t
  /\ numberOfImages s = numberOfImages t /\ stylePreset s = stylePreset t
  /\ model s = model t.

(** [t] differs from [s] in the image count and the archive flag at
    most. *)
Definition sameButCountAndZipFlag (s t : State) : Prop :=
  prompts t = prompts s /\ aspectRatio t = aspectRatio s
  /\ results t = results s /\ isLoading t = isLoading s
  /\ stylePreset t = stylePreset s /\ model t = model s
  /\ totalQueueCount t = totalQueueCount s
  /\ completedQueueCount t = completedQueueCount s
  /\ currentPromptIndex t = currentPromptIndex s.

(** A component in the middle of a batch. *)
Definition midBatchState : State :=
  mkState catDogText Ratio_1_1 1
    [ mkResult "a cat" success (Some ["data:image/jpeg;base64,AAA"]) None;
      mkResult "a dog" loading None None ]
    true false "" gemini_2_5_flash_image 2 1 2.

(** A component that shows a batch without a single image. *)
Definition failedState : State :=
  mkState catDogText Ratio_1_1 1
    [ mkResult "a cat" success (Some []) None;
      mkResult "a dog" error None (Some "quota exceeded") ]
    false false "" gemini_2_5_flash_image 2 2 2.

(** What holds of every run of the loop entered at position [i], whatever
    the other handlers do. *)
Definition loopShape (s0 : State) (i : nat) (r : Run) : Prop :=
  effects r = paced (map (requestOf s0) (drop i (promptsToProcess (prompts s0))))
  /\ outcome r = Normal tt
  /\ isLoading (final r) = false
  /\ Forall (inLoop s0) (suspensions r).

(** Handlers that wipe the Result Store and clear the busy flag while a
    batch is suspended. *)
Definition hostileWorld : World :=
  mkWorld catDogClient (fun _ s => set_results [] (set_isLoading false s)).

(** A client that is out of quota from the start. *)
Definition noQuotaWorld : World :=
  mkWorld (fun _ _ => Throw (JsError "quota exceeded")) (fun _ => restyle).

(** The part of a file name in front of the index: the sanitized prompt,
    or the default. *)
Definition nameBase (prompt_ : string) : string :=
  if JS.truthy (sanitizedPrompt prompt_) then sanitizedPrompt prompt_
  else "generated_image".

Definition isDigit (c : ascii) : bool :=
  let n := nat_of_ascii c in (48 <=? n) && (n <=? 57).

(** A store of three successful prompts with different sanitized texts. *)
Definition galleryStore : list ImageGenerationResult :=
  [ mkResult "a cat!" success
      (Some ["data:image/jpeg;base64,AAA"; "data:image/jpeg;base64,BBB"]) None;
    mkResult "a dog" error None (Some "quota exceeded");
    mkResult "A Dog" success (Some ["no payload"; "data:image/png;base64,CCC"])
      None ].

(** No string occurs twice in the list. *)
Fixpoint distinctStrings (l : list string) : bool :=
  match l with
  | [] => true
  | x :: rest => negb (existsb (String.eqb x) rest) && distinctStrings rest
  end.

(** The name bases of the successful entries of a store. *)
Definition successfulBases (rs : list ImageGenerationResult) : list string :=
  map (fun r => nameBase (prompt r)) (List.filter isSuccessful rs).

(** ** Vocabulary of binary64 rounding *)

(** The weight of the round bit and of the sticky bit of a shifted
    mantissa. *)
Definition half (b : bool) : Q := if b then (1 # 2)%Q else 0%Q.

(** The record [mrs] at exponent [e] locates the number [X]: the bits
    kept are those of [X], the round bit is the next one, the sticky bit
    tells whether anything is left below it. *)
Definition located (X : Q) (e : Z) (mrs : shr_record) : Prop :=
  (0 <= shr_m mrs)%Z
  /\ ((inject_Z (shr_m mrs) + half (shr_r mrs)) * Binary64.pow2 e <= X)%Q
  /\ (X <= (inject_Z (shr_m mrs) + half (shr_r mrs) + half (shr_s mrs))
           * Binary64.pow2 e)%Q.

(** The double of a mantissa and an exponent that came out of rounding a
    number that is not negative. *)
Definition rounded (M : Z) (e : Z) : spec_float :=
  match M with
  | Zpos m => S754_finite false m e
  | _ => S754_zero false
  end.

(** A client whose every request fails with an [Error] of empty
    message. *)
Definition silentFailure : World :=
  mkWorld (fun _ _ => Throw (JsError "")) (fun _ => restyle).

(** A client that throws a plain object with a [message] property. *)
Definition objectThrower : World :=
  mkWorld (fun _ _ => Throw (JsObject [("message", "rate limited")]))
    (fun _ => restyle).

(** * Properties *)

(** ** Strings *)

Section Strings.

Lemma isEmpty_eqb (s : string) : JS.isEmpty s = String.eqb s "".
Proof. destruct s; reflexivity. Qed.

Lemma trimEnd_blank (s : string) : JS.isEmpty (JS.trimEnd s) = isBlank s.
Proof.
  induction s as [|c s IH]; simpl; [reflexivity|].
  rewrite IH. destruct (JS.isWhiteSpace c), (isBlank s); reflexivity.
Qed.

Lemma trimStart_blank (s : string) : isBlank (JS.trimStart s) = isBlank s.
Proof.
  induction s as [|c s IH]; simpl; [reflexivity|].
  destruct (JS.isWhiteSpace c) eqn:Hc; simpl; [exact IH|].
  rewrite Hc. reflexivity.
Qed.

(** Trimming leaves nothing exactly of the strings made of whitespace. *)
Lemma trim_blank (s : string) : JS.isEmpty (JS.trim s) = isBlank s.
Proof. unfold JS.trim. rewrite trimEnd_blank. apply trimStart_blank. Qed.

Lemma filter_map_comm {A B} (f : A -> B) (p : B -> bool) (l : list A) :
  List.filter p (map f l) = map f (List.filter (fun x => p (f x)) l).
Proof.
  induction l as [|x l IH]; simpl; [reflexivity|].
  destruct (p (f x)); simpl; rewrite IH; reflexivity.
Qed.

Lemma filter_sublist {A} (p : A -> bool) (l : list A) :
  sublist (List.filter p l) l.
Proof.
  induction l as [|x l IH]; simpl; [constructor|].
  destruct (p x); [apply sublist_skip | apply sublist_cons]; exact IH.
Qed.

Lemma filter_Forall {A} (p : A -> bool) (l : list A) :
  Forall (fun x => p x = true) (List.filter p l).
Proof.
  induction l as [|x l IH]; simpl; [constructor|].
  destruct (p x) eqn:Hx; [constructor; assumption | exact IH].
Qed.

Lemma promptsToProcess_filter (raw : string) :
  promptsToProcess raw
  = List.filter (fun line => negb (isBlank line))
      (JS.split JS.LF (JS.trim raw)).
Proof.
  unfold promptsToProcess.
  apply filter_ext. intros line.
  rewrite <- isEmpty_eqb, trim_blank. reflexivity.
Qed.

Lemma trimStart_head (s : string) :
  JS.trimStart s = ""
  \/ exists c t, JS.trimStart s = String c t /\ JS.isWhiteSpace c = false.
Proof.
  induction s as [|c s IH]; [left; reflexivity|].
  cbn. destruct (JS.isWhiteSpace c) eqn:Hc; [exact IH|].
  right. exists c, s. split; [reflexivity | exact Hc].
Qed.

Lemma trim_head (s : string) :
  JS.trim s = ""
  \/ exists c t, JS.trim s = String c t /\ JS.isWhiteSpace c = false.
Proof.
  unfold JS.trim.
  destruct (trimStart_head s) as [-> | (c & t & -> & Hc)];
    [left; reflexivity|].
  right. exists c, (JS.trimEnd t). cbn. rewrite Hc. split; reflexivity.
Qed.

Lemma split_head (c : ascii) (t : string) :
  JS.isWhiteSpace c = false ->
  exists piece rest, JS.split JS.LF (String c t) = String c piece :: rest.
Proof.
  intros Hc. cbn.
  destruct (Ascii.eqb_spec c JS.LF) as [-> | _]; [discriminate Hc|].
  destruct (JS.split JS.LF t) as [|piece rest]; eauto.
Qed.

(** A text that does not trim to nothing has a first prompt. *)
Lemma promptsToProcess_nonempty (raw : string) :
  JS.truthy (JS.trim raw) = true -> 0 < length (promptsToProcess raw).
Proof.
  intros Hraw. rewrite promptsToProcess_filter.
  destruct (trim_head raw) as [E | (c & t & E & Hc)];
    rewrite E in *; [discriminate Hraw|].
  destruct (split_head c t Hc) as (piece & rest & ->).
  cbn. rewrite Hc. cbn. lia.
Qed.

(** The regular expressions of the file name, as plain string functions. *)

Lemma notNameChar_keep (c : ascii) :
  notNameChar c = negb (Spec.keepWhitespace c).
Proof. destruct c as [[] [] [] [] [] [] [] []]; reflexivity. Qed.

Lemma replace_class_strip (s : string) :
  JS.replace (JS.reClass notNameChar) "" s = Spec.strip Spec.keepWhitespace s.
Proof.
  unfold JS.replace.
  induction s as [|c s IH]; [reflexivity|].
  cbn [JS.replaceAll JS.reClass Spec.strip].
  rewrite notNameChar_keep.
  destruct (Spec.keepWhitespace c); cbn; rewrite IH; reflexivity.
Qed.

Lemma replaceAll_span (s : string) :
  JS.replaceAll (JS.rePlus JS.isWhiteSpace) "_"
    (JS.spanLength JS.isWhiteSpace s) s
  = JS.replaceAll (JS.rePlus JS.isWhiteSpace) "_" 0 (JS.trimStart s).
Proof.
  induction s as [|c s IH]; [reflexivity|].
  cbn [JS.spanLength JS.trimStart].
  destruct (JS.isWhiteSpace c); [exact IH | reflexivity].
Qed.

Lemma collapse_run (c : ascii) (s : string) :
  JS.isWhiteSpace c = true ->
  Spec.collapse (String c s) = String "_" (Spec.collapse (JS.trimStart s)).
Proof.
  revert c. induction s as [|c' s IH]; intros c Hc.
  - cbn. rewrite Hc. reflexivity.
  - cbn [Spec.collapse JS.trimStart]. rewrite Hc.
    destruct (JS.isWhiteSpace c') eqn:Hc'.
    + rewrite <- (IH c' Hc'). cbn [Spec.collapse]. rewrite Hc'. reflexivity.
    + cbn [Spec.collapse]. rewrite Hc'. reflexivity.
Qed.

Lemma replace_plus_collapse_both (s : string) :
  JS.replaceAll (JS.rePlus JS.isWhiteSpace) "_" 0 s = Spec.collapse s
  /\ JS.replaceAll (JS.rePlus JS.isWhiteSpace) "_" 0 (JS.trimStart s)
     = Spec.collapse (JS.trimStart s).
Proof.
  induction s as [|c s [IH1 IH2]]; [split; reflexivity|].
  assert (H1 : JS.replaceAll (JS.rePlus JS.isWhiteSpace) "_" 0 (String c s)
               = Spec.collapse (String c s)).
  { destruct (JS.isWhiteSpace c) eqn:Hc.
    - rewrite (collapse_run c s Hc).
      cbn [JS.replaceAll]. unfold JS.rePlus. cbn [JS.spanLength]. rewrite Hc.
      cbn [String.append]. rewrite replaceAll_span, IH2. reflexivity.
    - cbn [JS.replaceAll Spec.collapse]. unfold JS.rePlus.
      cbn [JS.spanLength]. rewrite Hc. fold (JS.rePlus JS.isWhiteSpace).
      rewrite IH1. reflexivity. }
  split; [exact H1|].
  cbn [JS.trimStart]. destruct (JS.isWhiteSpace c); [exact IH2 | exact H1].
Qed.

Lemma replace_plus_collapse (s : string) :
  JS.replace (JS.rePlus JS.isWhiteSpace) "_" s = Spec.collapse s.
Proof. apply replace_plus_collapse_both. Qed.

Lemma substring0_take (n : nat) (s : string) :
  JS.substring0 n s = Spec.take n s.
Proof.
  unfold JS.substring0. revert s.
  induction n as [|n IH]; intros [|c s]; simpl; try reflexivity.
  rewrite IH. reflexivity.
Qed.

Lemma sanitizedPrompt_pipeline (p : string) :
  sanitizedPrompt p
  = Spec.take 50
      (Spec.collapse (Spec.strip Spec.keepWhitespace (JS.toLowerCase p))).
Proof.
  unfold sanitizedPrompt.
  rewrite replace_class_strip, replace_plus_collapse, substring0_take.
  reflexivity.
Qed.

Lemma filename_amended (p : string) (index : nat) :
  filename p index = Spec.filenameAmended p index.
Proof.
  unfold filename, Spec.filenameAmended, Spec.filenameWith, JS.truthy.
  rewrite sanitizedPrompt_pipeline, isEmpty_eqb.
  destruct (String.eqb _ ""); reflexivity.
Qed.

Lemma allStripped_strip (p : string) :
  allStripped p = true ->
  Spec.strip Spec.keepWhitespace (JS.toLowerCase p) = "".
Proof.
  induction p as [|c p IH]; [reflexivity|].
  cbn [allStripped JS.toLowerCase Spec.strip].
  rewrite notNameChar_keep. intros H.
  apply andb_prop in H as [Hc Hp].
  apply negb_true_iff in Hc. rewrite Hc. exact (IH Hp).
Qed.

End Strings.

(** ** The stretches of [generateImages] *)

Section Steps.

Variable loc : Frame.

Let N := length (framePrompts loc).

Lemma loopHead_in (i : nat) (s : State) :
  i < N ->
  loopHead loc i s
  = (Normal (Pending (AwaitGenerate loc i (nth i (framePrompts loc) "")
                        (requestAt loc i))),
     set_currentPromptIndex (i + 1) s,
     [CallGenerateImage (requestAt loc i)]).
Proof.
  intros Hi. unfold loopHead.
  apply Nat.ltb_lt in Hi. fold N. rewrite Hi. reflexivity.
Qed.

Lemma loopHead_out (i : nat) (s : State) :
  ~ i < N ->
  loopHead loc i s = (Normal Finished, set_isLoading false s, []).
Proof.
  intros Hi. unfold loopHead.
  apply Nat.ltb_nlt in Hi. fold N. rewrite Hi. reflexivity.
Qed.

Lemma resumeGenerate_pause (i : nat) (p : string)
    (answer : Completion (list string)) (s : State) :
  i + 1 < N ->
  resumeGenerate loc i p answer s
  = (Normal (Pending (AwaitDelay loc i)), afterSettle i p answer s,
     [SetTimeout 1000]).
Proof.
  intros Hi. unfold resumeGenerate.
  assert (Hz : (Z.of_nat i <? Z.of_nat N - 1)%Z = true)
    by (apply Z.ltb_lt; lia).
  destruct answer; unfold bind, try_finally, try_catch, settle; cbn;
    fold N; rewrite Hz; reflexivity.
Qed.

Lemma resumeGenerate_last (i : nat) (p : string)
    (answer : Completion (list string)) (s : State) :
  ~ i + 1 < N ->
  resumeGenerate loc i p answer s
  = loopHead loc (i + 1) (afterSettle i p answer s).
Proof.
  intros Hi. unfold resumeGenerate.
  assert (Hz : (Z.of_nat i <? Z.of_nat N - 1)%Z = false)
    by (apply Z.ltb_ge; lia).
  destruct answer; unfold bind, try_finally, try_catch, settle; cbn;
    fold N; rewrite Hz; unfold afterSettle, settled;
    match goal with
    | |- context [loopHead ?l ?j ?t] =>
        destruct (loopHead l j t) as [[? ?] ?]
    end; reflexivity.
Qed.

End Steps.

(** ** A whole batch *)

Section Batch.

Variable w : World.
Variable s0 : State.
Hypothesis Hquiet : quiet w.

Let pts := promptsToProcess (prompts s0).
Let N := length pts.
Let loc := frameOf s0.

Lemma requestAt_requestOf (i : nat) :
  requestAt loc i = requestOf s0 (nth i pts "").
Proof.
  unfold requestAt, requestOf, effectivePrompt, loc, frameOf; cbn.
  destruct (stylePreset s0); reflexivity.
Qed.

Lemma storeAfter_assign (ans : nat -> string -> Completion (list string))
    (i : nat) (p : string) :
  pts !! i = Some p ->
  assign i (settled p (ans i p)) (storeAfter ans pts i)
  = storeAfter ans pts (i + 1).
Proof.
  intros Hp. unfold storeAfter, assign.
  assert (Hi : i < length pts) by (eapply lookup_lt_Some; exact Hp).
  assert (Hlen : length (imap (fun j q => settled q (ans j q)) (take i pts)) = i)
    by (rewrite length_imap, length_take; lia).
  rewrite insert_app_r_alt by lia.
  rewrite Hlen, Nat.sub_diag.
  rewrite (drop_S pts p i Hp). cbn [map].
  replace (i + 1) with (S i) by lia.
  rewrite (take_S_r pts i p Hp), imap_app. cbn [imap].
  rewrite length_take, Nat.min_l by lia.
  rewrite Nat.add_0_r, <- app_assoc. reflexivity.
Qed.

Lemma drive_finished (fuel n : nat) (s : State) (es : list Effect) :
  drive fuel w n (Normal Finished, s, es) = Some (mkRun s es [] (Normal tt)).
Proof. destruct fuel; reflexivity. Qed.

Lemma drive_pending (fuel n : nat) (k : Suspended) (s : State)
    (es : list Effect) (r : Run) :
  drive fuel w (S n) (resume w k (meanwhile w n s)) = Some r ->
  drive (S fuel) w n (Normal (Pending k), s, es)
  = Some (mkRun (final r) (es ++ effects r) ((k, s) :: suspensions r)
            (outcome r)).
Proof. intros H. cbn [drive]. rewrite H. reflexivity. Qed.

(** The loop from position [i] on, entered in a state that shows the
    first [i] prompts settled. *)
Lemma loop_from (d : nat) :
  forall (i n fuel : nat) (s : State),
    i + d = N ->
    2 * d <= fuel ->
    isLoading s = true ->
    totalQueueCount s = N ->
    completedQueueCount s = i ->
    results s = storeAfter (answers w s0) pts i ->
    exists r, drive fuel w n (loopHead loc i s) = Some r
              /\ loopDone w s0 i d r.
Proof.
  induction d as [|d IH]; intros i n fuel s Hid Hfuel Hbusy Htot Hdone Hres.
  - rewrite (loopHead_out loc i s) by (cbn; fold pts N; lia).
    rewrite drive_finished. eexists; split; [reflexivity|].
    unfold loopDone; fold pts N; cbn.
    replace i with N in * by lia.
    repeat split; try assumption; try constructor.
    + unfold N. rewrite drop_all. reflexivity.
    + intros j obs Hj. destruct j; discriminate Hj.
  - assert (Hi : i < N) by lia.
    destruct (lookup_lt_is_Some_2 pts i Hi) as [p Hp].
    assert (Hnth : nth i pts "" = p) by (rewrite nth_lookup, Hp; reflexivity).
    rewrite (loopHead_in loc i s) by (cbn; fold pts N; lia).
    cbn [frameOf framePrompts loc]. fold pts. fold loc.
    rewrite Hnth, requestAt_requestOf, Hnth.
    destruct fuel as [|fuel]; [lia|].
    set (s1 := set_currentPromptIndex (i + 1) s).
    set (answer := generateImage w i (requestOf s0 p)).
    destruct (Hquiet n s1) as (Hq1 & Hq2 & Hq3 & Hq4).
    set (s2 := afterSettle i p answer (meanwhile w n s1)).
    assert (Hres2 : results s2 = storeAfter (answers w s0) pts (i + 1)).
    { unfold s2, afterSettle; cbn. rewrite Hq1. unfold s1; cbn.
      rewrite Hres. apply (storeAfter_assign (answers w s0) i p Hp). }
    assert (Hbusy2 : isLoading s2 = true)
      by (unfold s2, afterSettle; cbn; rewrite Hq2; exact Hbusy).
    assert (Htot2 : totalQueueCount s2 = N)
      by (unfold s2, afterSettle; cbn; rewrite Hq3; exact Htot).
    assert (Hdone2 : completedQueueCount s2 = i + 1)
      by (unfold s2, afterSettle; cbn; rewrite Hq4; unfold s1; cbn; lia).
    assert (Hmid1 : midBatch N (AwaitGenerate loc i p (requestOf s0 p), s1))
      by (unfold midBatch, s1; cbn; repeat split; (assumption || lia)).
    assert (Hst1 : storeInStep w s0 (AwaitGenerate loc i p (requestOf s0 p), s1))
      by (unfold storeInStep, s1; cbn; fold pts; rewrite Hdone; exact Hres).
    destruct (Nat.lt_ge_cases (i + 1) N) as [Hmore | Hlast].
    + (* a pause, then the next prompt *)
      destruct fuel as [|fuel]; [lia|].
      destruct (Hquiet (S n) s2) as (Hp1 & Hp2 & Hp3 & Hp4).
      destruct (IH (i + 1) (S (S n)) fuel (meanwhile w (S n) s2))
        as (r & Hr & Hloop); try lia; try congruence.
      eexists; split.
      * apply drive_pending. cbn [resume]. fold answer.
        rewrite (resumeGenerate_pause loc i p answer)
          by (cbn; fold pts N; lia).
        fold s2. apply drive_pending. cbn [resume]. unfold resumeDelay.
        exact Hr.
      * unfold loopDone in Hloop |- *; fold pts N in Hloop |- *;
          cbn [final effects suspensions outcome requestsOf
               awaitedRequests app length].
        destruct Hloop
          as (L1 & L2 & L3 & L4 & L5 & L6 & L7 & L8 & L9 & L10 & L11).
        repeat split; try assumption.
        -- rewrite L6, (drop_S pts p i Hp).
           replace (i + 1) with (S i) by lia. reflexivity.
        -- rewrite L7. replace (i + 1) with (S i) by lia. reflexivity.
        -- constructor; [exact Hmid1|]. constructor; [|exact L8].
           unfold midBatch; cbn [fst snd]. rewrite Hdone2.
           repeat split; (assumption || lia).
        -- constructor; [exact Hst1|]. constructor; [|exact L9].
           unfold storeInStep; cbn [fst snd]; fold pts.
           rewrite Hdone2. exact Hres2.
        -- rewrite L10. lia.
        -- intros [|[|j]] obs Hj; cbn in Hj.
           ++ injection Hj as <-. cbn [snd]. unfold s1; cbn.
              rewrite Hdone. cbn. lia.
           ++ injection Hj as <-. cbn [snd]. rewrite Hdone2. cbn. lia.
           ++ rewrite (L11 j obs Hj).
              assert (E : (S (S j) + 1) / 2 = (j + 1) / 2 + 1).
              { replace (S (S j) + 1) with ((j + 1) + 1 * 2) by lia.
                apply Nat.div_add. lia. }
              rewrite E. lia.
    + (* the last prompt: straight to the end of the loop *)
      destruct (IH (i + 1) (S n) fuel s2) as (r & Hr & Hloop);
        try lia; try assumption.
      eexists; split.
      * apply drive_pending. cbn [resume]. fold answer.
        rewrite (resumeGenerate_last loc i p answer)
          by (cbn; fold pts N; lia).
        fold s2. exact Hr.
      * unfold loopDone in Hloop |- *; fold pts N in Hloop |- *;
          cbn [final effects suspensions outcome requestsOf
               awaitedRequests app length].
        destruct Hloop
          as (L1 & L2 & L3 & L4 & L5 & L6 & L7 & L8 & L9 & L10 & L11).
        assert (Hnil : suspensions r = [])
          by (apply length_zero_iff_nil; rewrite L10; lia).
        repeat split; try assumption.
        -- rewrite L6, (drop_S pts p i Hp).
           replace (i + 1) with (S i) by lia. reflexivity.
        -- rewrite L7. replace (i + 1) with (S i) by lia. reflexivity.
        -- constructor; [exact Hmid1 | exact L8].
        -- constructor; [exact Hst1 | exact L9].
        -- rewrite Hnil. cbn. lia.
        -- rewrite Hnil. intros [|j] obs Hj; cbn in Hj; [|discriminate Hj].
           injection Hj as <-. cbn [snd]. unfold s1; cbn.
           rewrite Hdone. cbn. lia.
Qed.

End Batch.

Section Calls.

Lemma triple_eta {A B C} (x : A * B * C) :
  (let '(r, s, e) := x in (r, s, e)) = x.
Proof. destruct x as [[? ?] ?]. reflexivity. Qed.

Lemma start_refused (s : State) :
  isLoading s = true \/ JS.truthy (JS.trim (prompts s)) = false ->
  generateImages_start s = (Normal Finished, s, []).
Proof.
  intros H. unfold generateImages_start, bind, get.
  destruct H as [H | H]; rewrite H; [|rewrite orb_true_r]; reflexivity.
Qed.

Lemma start_accepted (s : State) :
  isLoading s = false ->
  JS.truthy (JS.trim (prompts s)) = true ->
  generateImages_start s = loopHead (frameOf s) 0 (initOf s).
Proof.
  intros Hbusy Htext. unfold generateImages_start, bind, get, modify.
  rewrite Hbusy, Htext. cbn.
  rewrite !triple_eta. reflexivity.
Qed.

(** Every accepted call runs to its end within the fuel it is given. *)
Lemma batch_run (w : World) (s : State) :
  quiet w ->
  isLoading s = false ->
  JS.truthy (JS.trim (prompts s)) = true ->
  exists r, generateImages w s = Some r
            /\ loopDone w s 0 (length (promptsToProcess (prompts s))) r.
Proof.
  intros Hquiet Hbusy Htext. unfold generateImages.
  rewrite (start_accepted s Hbusy Htext).
  apply loop_from; try assumption; try reflexivity; lia.
Qed.

Lemma prompt_imap (f : nat -> string -> ImageGenerationResult)
    (l : list string) :
  (forall j p, prompt (f j p) = p) -> map prompt (imap f l) = l.
Proof.
  revert f. induction l as [|x l IH]; intros f Hf; [reflexivity|].
  cbn. rewrite Hf. f_equal. apply IH. intros j p. apply Hf.
Qed.

(** Whatever has settled, the store lists the raw prompts in order. *)
Lemma storeAfter_prompts (ans : nat -> string -> Completion (list string))
    (pts : list string) (i : nat) :
  map prompt (storeAfter ans pts i) = pts.
Proof.
  unfold storeAfter. rewrite map_app, map_map. cbn.
  rewrite prompt_imap by (intros j p; destruct (ans j p); reflexivity).
  rewrite map_id. apply take_drop.
Qed.

Lemma storeAfter_all (ans : nat -> string -> Completion (list string))
    (pts : list string) :
  storeAfter ans pts (length pts) = imap (fun j p => settled p (ans j p)) pts.
Proof.
  unfold storeAfter. rewrite firstn_all, drop_all. apply app_nil_r.
Qed.

Lemma storeAfter_lookup (ans : nat -> string -> Completion (list string))
    (pts : list string) (i : nat) (p : string) :
  pts !! i = Some p ->
  storeAfter ans pts (length pts) !! i = Some (settled p (ans i p)).
Proof.
  intros Hp. rewrite storeAfter_all, list_lookup_imap, Hp. reflexivity.
Qed.

Lemma storeAfter_length (ans : nat -> string -> Completion (list string))
    (pts : list string) (i : nat) :
  length (storeAfter ans pts i) = length pts.
Proof.
  pose proof (storeAfter_prompts ans pts i) as H.
  apply (f_equal (@length string)) in H.
  rewrite length_map in H. exact H.
Qed.

(** Every assignment [newResults[i] = ...] of a run falls inside the
    array. *)
Lemma assign_in_range (w : World) (s : State) :
  quiet w ->
  isLoading s = false ->
  JS.truthy (JS.trim (prompts s)) = true ->
  exists r,
    generateImages w s = Some r
    /\ Forall (fun obs =>
                 forall n,
                   match fst obs with
                   | AwaitGenerate _ i _ _ =>
                       i < length (results (meanwhile w n (snd obs)))
                   | AwaitDelay _ _ => True
                   end)
         (suspensions r).
Proof.
  intros Hquiet Hbusy Htext.
  destruct (batch_run w s Hquiet Hbusy Htext) as (r & Hr & Hloop).
  exists r. split; [exact Hr|].
  destruct Hloop as (_ & _ & _ & _ & _ & _ & _ & Hmid & Hsteps & _).
  rewrite Forall_forall in Hmid, Hsteps. apply Forall_forall.
  intros [k t] Hobs n. cbn [fst snd].
  destruct k as [loc i p req | loc i]; [|exact I].
  destruct (Hquiet n t) as (-> & _).
  pose proof (Hmid _ Hobs) as (_ & _ & Hlt & Hi).
  pose proof (Hsteps _ Hobs) as Hstore.
  unfold storeInStep in Hstore. cbn [fst snd] in *.
  rewrite Hstore, storeAfter_length. lia.
Qed.

(** A second call made while a batch is suspended finds the busy flag set
    and does nothing. *)
Lemma second_call_refused (w : World) (s : State) :
  quiet w ->
  isLoading s = false ->
  JS.truthy (JS.trim (prompts s)) = true ->
  exists r,
    generateImages w s = Some r
    /\ Forall (fun obs =>
                 forall w',
                   generateImages w' (snd obs)
                   = Some (mkRun (snd obs) [] [] (Normal tt)))
         (suspensions r).
Proof.
  intros Hquiet Hbusy Htext.
  destruct (batch_run w s Hquiet Hbusy Htext) as (r & Hr & Hloop).
  exists r. split; [exact Hr|].
  destruct Hloop as (_ & _ & _ & _ & _ & _ & _ & Hmid & _).
  eapply Forall_impl; [exact Hmid|].
  intros obs (Hflag & _) w'. unfold generateImages.
  rewrite start_refused by (left; exact Hflag).
  apply drive_finished.
Qed.

Lemma effectivePrompt_requests (s : State) (pts : list string) :
  map finalPrompt (map (requestOf s) pts)
  = map (effectivePrompt (stylePreset s)) pts.
Proof. rewrite map_map. reflexivity. Qed.

End Calls.

(** ** The archive *)

Section Archive.

Lemma zip_start_refused (s : State) :
  isZipping s = true ->
  downloadAllAsZip_start s = (Normal ZipFinished, s, []).
Proof.
  intros H. unfold downloadAllAsZip_start, bind, get. rewrite H. reflexivity.
Qed.

Lemma zip_start_accepted (s : State) :
  isZipping s = false ->
  downloadAllAsZip_start s
  = (Normal (AwaitArchive (buildZip (results s))), set_isZipping true s,
     [ZipGenerateAsync (buildZip (results s))]).
Proof.
  intros H. unfold downloadAllAsZip_start, bind, get. rewrite H. reflexivity.
Qed.

(** The second stretch never throws: a failure of the packaging ends in
    [catch], and [finally] clears the flag on every way out. *)
Lemma zip_resume (p : Packaging) (zip : Zip) (s : State) :
  downloadAllAsZip_resume p zip s
  = (Normal tt, set_isZipping false s, archiveReport p zip).
Proof.
  unfold downloadAllAsZip_resume, archiveReport, try_finally, try_catch,
    bind, settle, callSaveAs.
  destruct (generateAsync p zip) as [content | v]; cbn; [|reflexivity].
  destruct (saveAs p content "generated_images.zip") as [[] | v];
    reflexivity.
Qed.

Lemma zipFile_length (name data : string) (zip : Zip) :
  length (zipFile name data zip) <= S (length zip).
Proof.
  induction zip as [|[n d] zip IH]; cbn; [lia|].
  destruct (String.eqb n name); cbn; lia.
Qed.

Lemma addImage_length (p : string) (i : nat) (img : string) (zip : Zip) :
  length (addImage p i img zip)
  <= length zip + (if isEligible img then 1 else 0).
Proof.
  unfold addImage, isEligible.
  destruct (base64Data img) as [data|]; [|lia].
  destruct (JS.truthy data); cbn; [|lia].
  pose proof (zipFile_length (filename p i) data zip). lia.
Qed.

Lemma addImages_length (p : string) (imgs : list string) :
  forall (i : nat) (zip : Zip),
    length (addImages p i imgs zip)
    <= length zip + length (List.filter isEligible imgs).
Proof.
  induction imgs as [|img imgs IH]; intros i zip; cbn; [lia|].
  pose proof (IH (i + 1) (addImage p i img zip)).
  pose proof (addImage_length p i img zip).
  destruct (isEligible img); cbn; lia.
Qed.

Lemma addResults_length (rs : list ImageGenerationResult) :
  forall zip : Zip,
    length (fold_left addResult rs zip)
    <= length zip
       + length (flat_map
                   (fun r => List.filter isEligible (default [] (images r)))
                   rs).
Proof.
  induction rs as [|r rs IH]; intros zip; cbn; [lia|].
  pose proof (IH (addResult zip r)) as H.
  rewrite length_app.
  assert (length (addResult zip r)
          <= length zip
             + length (List.filter isEligible (default [] (images r)))).
  { unfold addResult. destruct (images r) as [imgs|]; cbn; [|lia].
    apply addImages_length. }
  lia.
Qed.

(** The archive never holds more files than there are eligible images. *)
Lemma buildZip_length (rs : list ImageGenerationResult) :
  length (buildZip rs) <= length (eligibleImages rs).
Proof.
  unfold buildZip, eligibleImages.
  apply (addResults_length (List.filter isSuccessful rs) []).
Qed.

End Archive.

(** ** Progress *)

(** The two roundings of line 70, followed through SpecFloat's [SFdiv] and
    [SFmul]: the shifts keep the exact number where the record of
    mantissa, round bit and sticky bit says it is; rounding to nearest
    moves by half a unit at most; then the quotient of two counts and its
    product by 100 are bounded from both sides. *)
Section Rounding.

Local Open Scope Q_scope.

Local Abbreviation pow2 := Binary64.pow2.
Local Abbreviation toQ := Binary64.toQ.

Lemma pow2_pos (e : Z) : 0 < pow2 e.
Proof. apply Qpower_0_lt. reflexivity. Qed.

Lemma pow2_add (a b : Z) : pow2 (a + b) == pow2 a * pow2 b.
Proof. apply Qpower_plus. discriminate. Qed.

Lemma pow2_succ (e : Z) : pow2 (e + 1) == 2 * pow2 e.
Proof. rewrite pow2_add. change (pow2 1) with 2. ring. Qed.

Lemma pow2_le (a b : Z) : (a <= b)%Z -> pow2 a <= pow2 b.
Proof. intros H. apply Qpower_le_compat_l; [exact H | discriminate]. Qed.

Lemma pow2_lt_inv (a b : Z) : pow2 a < pow2 b -> (a < b)%Z.
Proof. intros H. apply (Qpower_lt_compat_l_inv 2); [exact H | reflexivity]. Qed.

Lemma pow2_Z (k : Z) : (0 <= k)%Z -> inject_Z (2 ^ k) == pow2 k.
Proof. intros H. apply (Zpower_Qpower 2 k H). Qed.

Lemma inject_xO (p : positive) : inject_Z (Zpos p~0) == 2 * inject_Z (Zpos p).
Proof. rewrite Pos2Z.inj_xO, inject_Z_mult. reflexivity. Qed.

Lemma inject_xI (p : positive) :
  inject_Z (Zpos p~1) == 2 * inject_Z (Zpos p) + 1.
Proof. rewrite Pos2Z.inj_xI, inject_Z_plus, inject_Z_mult. reflexivity. Qed.

Lemma inject_pos (p : positive) : 1 <= inject_Z (Zpos p).
Proof. change 1 with (inject_Z 1). rewrite <- Zle_Qle. lia. Qed.

Lemma half_bounds (b : bool) : 0 <= half b /\ half b <= 1 # 2.
Proof. destruct b; cbn [half]; split; lra. Qed.

(** One more bit shifted out keeps the number where the record says. *)
Lemma shr_1_located (X : Q) (e : Z) (mrs : shr_record) :
  located X e mrs -> located X (e + 1) (shr_1 mrs).
Proof.
  unfold located. destruct mrs as [m r s]. cbn [shr_m shr_r shr_s].
  intros (Hm & Hlow & Hup).
  pose proof (pow2_pos e) as Hk. pose proof (pow2_succ e) as Hs.
  destruct m as [|[p|p|]|p]; try lia; cbn [shr_1 shr_m shr_r shr_s].
  - change (inject_Z 0) with 0 in *. split; [lia|].
    destruct r, s; cbn [half orb] in *; split; nra.
  - pose proof (inject_xI p) as Hp. split; [lia|].
    destruct r, s; cbn [half orb] in *; split; nra.
  - pose proof (inject_xO p) as Hp. split; [lia|].
    destruct r, s; cbn [half orb] in *; split; nra.
  - change (inject_Z 1) with 1 in *. change (inject_Z 0) with 0. split; [lia|].
    destruct r, s; cbn [half orb] in *; split; nra.
Qed.

Lemma iter_shr_1_located (n : positive) :
  forall (X : Q) (e : Z) (mrs : shr_record),
    located X e mrs -> located X (e + Zpos n) (SpecFloat.iter_pos shr_1 n mrs).
Proof.
  induction n as [n IH|n IH|]; intros X e mrs H; cbn [SpecFloat.iter_pos].
  - replace (e + Zpos n~1)%Z with (e + 1 + Zpos n + Zpos n)%Z by lia.
    apply IH, IH, shr_1_located, H.
  - replace (e + Zpos n~0)%Z with (e + Zpos n + Zpos n)%Z by lia.
    apply IH, IH, H.
  - apply shr_1_located, H.
Qed.

Lemma shr_located (X : Q) (e n : Z) (mrs : shr_record) :
  located X e mrs ->
  located X (snd (shr mrs e n)) (fst (shr mrs e n))
  /\ snd (shr mrs e n) = (e + Z.max 0 n)%Z
  /\ ((n <= 0)%Z -> fst (shr mrs e n) = mrs).
Proof.
  intros H. destruct n as [|n|n]; cbn [shr fst snd].
  - split; [exact H | split; [lia | reflexivity]].
  - split; [apply iter_shr_1_located, H | split; lia].
  - split; [exact H | split; [lia | reflexivity]].
Qed.

(** Rounding to nearest, ties to even, moves by half a unit at most. *)
Lemma round_nearest_even_located (X : Q) (e : Z) (mrs : shr_record) :
  located X e mrs ->
  let m := round_nearest_even (shr_m mrs) (loc_of_shr_record mrs) in
  (0 <= m)%Z /\ (m <= shr_m mrs + 1)%Z
  /\ (inject_Z m - (1 # 2)) * pow2 e <= X
  /\ X <= (inject_Z m + (1 # 2)) * pow2 e.
Proof.
  unfold located. destruct mrs as [m r s]. cbn [shr_m shr_r shr_s].
  intros (Hm & Hlow & Hup). pose proof (pow2_pos e) as Hk.
  assert (Hm1 : inject_Z (m + 1) == inject_Z m + 1)
    by (rewrite inject_Z_plus; reflexivity).
  destruct r, s; cbn [loc_of_shr_record round_nearest_even half] in *;
    try destruct (Z.even m); repeat split; try lia; nra.
Qed.

Lemma digits2_pos_bounds (p : positive) :
  (2 ^ (Zpos (digits2_pos p) - 1) <= Zpos p < 2 ^ Zpos (digits2_pos p))%Z.
Proof.
  induction p as [p IH|p IH|]; cbn [digits2_pos].
  - rewrite Pos2Z.inj_succ.
    replace (Z.succ (Zpos (digits2_pos p)) - 1)%Z
      with (Z.succ (Zpos (digits2_pos p) - 1))%Z by lia.
    rewrite !Z.pow_succ_r by lia. lia.
  - rewrite Pos2Z.inj_succ.
    replace (Z.succ (Zpos (digits2_pos p)) - 1)%Z
      with (Z.succ (Zpos (digits2_pos p) - 1))%Z by lia.
    rewrite !Z.pow_succ_r by lia. lia.
  - cbn. lia.
Qed.

Lemma digits_lower (p : positive) :
  pow2 (Zdigits2 (Zpos p) - 1) <= inject_Z (Zpos p).
Proof.
  cbn [Zdigits2]. rewrite <- pow2_Z by lia. rewrite <- Zle_Qle.
  apply digits2_pos_bounds.
Qed.

Lemma digits_upper (p : positive) :
  inject_Z (Zpos p) < pow2 (Zdigits2 (Zpos p)).
Proof.
  cbn [Zdigits2]. rewrite <- pow2_Z by lia. rewrite <- Zlt_Qlt.
  apply digits2_pos_bounds.
Qed.

Lemma digits_exponent (m e K : Z) :
  (0 <= m)%Z -> (e <= K)%Z -> inject_Z m * pow2 e < pow2 K ->
  (Zdigits2 m + e <= K)%Z.
Proof.
  intros Hm He H. destruct m as [|p|p]; [cbn; lia| |lia].
  pose proof (digits_lower p) as Hd. pose proof (pow2_pos e) as Hk.
  assert (Hlt : pow2 (Zdigits2 (Zpos p) - 1 + e) < pow2 K).
  { rewrite pow2_add. nra. }
  apply pow2_lt_inv in Hlt. lia.
Qed.

Lemma shr_record_of_loc_m (m : Z) (l : location) :
  shr_m (shr_record_of_loc m l) = m.
Proof. destruct l as [|[]]; reflexivity. Qed.

Lemma fexp_unfold (z : Z) : fexp 53 1024 z = Z.max (z - 53) (-1074).
Proof. reflexivity. Qed.

Lemma located_exact (m e : Z) :
  (0 <= m)%Z -> located (inject_Z m * pow2 e) e (shr_record_of_loc m loc_Exact).
Proof.
  intros Hm. unfold located. cbn [shr_record_of_loc shr_m shr_r shr_s half].
  repeat split; [exact Hm | |]; ring_simplify; apply Qle_refl.
Qed.

(** The rounding step of every operation: a number below [2 ^ K] that the
    record locates comes out as zero or as a finite double, never as an
    infinity or a NaN, at most half a unit above the number and at most
    five quarters of a unit below it. *)
Lemma binary_round_aux_spec (K : Z) (X : Q) (mx ex : Z) (lx : location) :
  located X ex (shr_record_of_loc mx lx) ->
  X < pow2 K -> (ex <= K - 53)%Z -> (-1021 <= K <= 1023)%Z ->
  exists M e : Z,
    (0 <= M)%Z /\ (e <= K - 52)%Z
    /\ binary_round_aux 53 1024 false mx ex lx = rounded M e
    /\ (inject_Z M - (1 # 2)) * pow2 e <= X
    /\ X <= (inject_Z M + (5 # 4)) * pow2 e.
Proof.
  intros Hloc HX Hex HK. unfold binary_round_aux, shr_fexp.
  pose proof Hloc as (Hmx & Hlow & _). rewrite shr_record_of_loc_m in Hmx, Hlow.
  pose proof (pow2_pos ex) as Hkx.
  assert (Hd1 : (Zdigits2 mx + ex <= K)%Z).
  { apply digits_exponent; [exact Hmx | lia |].
    pose proof (half_bounds (shr_r (shr_record_of_loc mx lx))) as [Hh _].
    nra. }
  destruct (shr_located X ex (fexp 53 1024 (Zdigits2 mx + ex) - ex) _ Hloc)
    as (Hl1 & He1 & _).
  destruct (shr (shr_record_of_loc mx lx) ex
              (fexp 53 1024 (Zdigits2 mx + ex) - ex)) as [mrs1 e1].
  cbn [fst snd] in Hl1, He1. rewrite fexp_unfold in He1.
  destruct (round_nearest_even_located X e1 mrs1 Hl1)
    as (Hm2 & Hm2' & Hlow2 & Hup2).
  set (m2 := round_nearest_even (shr_m mrs1) (loc_of_shr_record mrs1)) in *.
  destruct Hl1 as (Hm1 & Hlow1 & _).
  pose proof (pow2_pos e1) as Hk1.
  assert (He1K : pow2 e1 <= pow2 K) by (apply pow2_le; lia).
  assert (Hup : inject_Z m2 <= inject_Z (shr_m mrs1) + 1).
  { rewrite Zle_Qle, inject_Z_plus in Hm2'. exact Hm2'. }
  assert (Hd2 : (Zdigits2 m2 + e1 <= K + 1)%Z).
  { apply digits_exponent; [exact Hm2 | lia |].
    rewrite pow2_succ.
    pose proof (half_bounds (shr_r mrs1)) as [Hh _].
    nra. }
  destruct (shr_located _ e1 (fexp 53 1024 (Zdigits2 m2 + e1) - e1) _
              (located_exact m2 e1 Hm2)) as (Hl3 & He2 & Hsame).
  destruct (shr (shr_record_of_loc m2 loc_Exact) e1
              (fexp 53 1024 (Zdigits2 m2 + e1) - e1)) as [mrs2 e2].
  cbn [fst snd] in Hl3, He2, Hsame. rewrite fexp_unfold in He2, Hsame.
  destruct Hl3 as (Hm3 & Hlow3 & Hup3).
  pose proof (pow2_pos e2) as Hk2.
  pose proof (half_bounds (shr_r mrs2)) as [Hr3 Hr3'].
  pose proof (half_bounds (shr_s mrs2)) as [Hs3 Hs3'].
  exists (shr_m mrs2), e2. split; [exact Hm3|]. split; [lia|]. split; [|split].
  - destruct (shr_m mrs2) as [|p|p]; [reflexivity | | lia].
    replace (e2 <=? 1024 - 53)%Z with true by (symmetry; apply Z.leb_le; lia).
    reflexivity.
  - assert (He12 : pow2 e1 <= pow2 e2) by (apply pow2_le; lia). nra.
  - destruct (Z_le_gt_dec (Z.max (Zdigits2 m2 + e1 - 53) (-1074) - e1) 0)
      as [Hn|Hn].
    + rewrite (Hsame Hn) in *. cbn [shr_record_of_loc shr_m] in *.
      replace e2 with e1 in * by lia. nra.
    + assert (He12 : 2 * pow2 e1 <= pow2 e2).
      { rewrite <- pow2_succ. apply pow2_le. lia. }
      nra.
Qed.

Lemma binary_round_aux_canonical (sx : bool) (m : positive) (e : Z) :
  Zpos (digits2_pos m) = 53%Z -> (-1074 <= e <= 971)%Z ->
  binary_round_aux 53 1024 sx (Zpos m) e loc_Exact = S754_finite sx m e.
Proof.
  intros Hd He. unfold binary_round_aux, shr_fexp. cbn [Zdigits2].
  rewrite Hd, fexp_unfold.
  replace (Z.max (53 + e - 53) (-1074) - e)%Z with 0%Z by lia.
  cbn [shr_record_of_loc shr shr_m loc_of_shr_record round_nearest_even
       Zdigits2].
  rewrite Hd, fexp_unfold.
  replace (Z.max (53 + e - 53) (-1074) - e)%Z with 0%Z by lia.
  cbn [shr shr_m].
  replace (e <=? 1024 - 53)%Z with true by (symmetry; apply Z.leb_le; lia).
  reflexivity.
Qed.

Lemma iter_xO_spec (k p : positive) :
  Zpos (Pos.iter xO p k) = (Zpos p * 2 ^ Zpos k)%Z
  /\ Zpos (digits2_pos (Pos.iter xO p k)) = (Zpos (digits2_pos p) + Zpos k)%Z.
Proof.
  induction k as [|k IH] using Pos.peano_ind.
  - cbn [Pos.iter digits2_pos]. split; lia.
  - rewrite Pos.iter_succ. cbn [digits2_pos]. destruct IH as [IH1 IH2].
    rewrite Pos2Z.inj_xO, IH1, !Pos2Z.inj_succ, IH2, Z.pow_succ_r by lia.
    split; lia.
Qed.

(** An integer below [2 ^ 53] is a double. *)
Lemma binary_normalize_exact (p : positive) :
  (Zpos p < 2 ^ 53)%Z ->
  exists (m : positive) (e : Z),
    binary_normalize 53 1024 (Zpos p) 0 false = S754_finite false m e
    /\ inject_Z (Zpos m) * pow2 e == inject_Z (Zpos p).
Proof.
  intros Hp. pose proof (digits2_pos_bounds p) as Hd.
  assert (Hd53 : (Zpos (digits2_pos p) <= 53)%Z).
  { destruct (Z_le_gt_dec (Zpos (digits2_pos p)) 53) as [H|H]; [exact H|].
    assert (2 ^ 53 <= 2 ^ (Zpos (digits2_pos p) - 1))%Z
      by (apply Z.pow_le_mono_r; lia).
    lia. }
  cbn [binary_normalize]. unfold binary_round, shl_align.
  rewrite fexp_unfold.
  destruct (Z.max (Zpos (digits2_pos p) + 0 - 53) (-1074) - 0)%Z
    as [|k|k] eqn:Hk; try lia.
  - exists p, 0%Z. split.
    + apply binary_round_aux_canonical; lia.
    + change (pow2 0) with 1. ring.
  - destruct (iter_xO_spec k p) as [Hv Hdig].
    exists (Pos.iter xO p k), (Z.max (Zpos (digits2_pos p) + 0 - 53) (-1074)).
    split.
    + apply binary_round_aux_canonical; lia.
    + rewrite Hv, inject_Z_mult, pow2_Z by lia.
      replace (Z.max (Zpos (digits2_pos p) + 0 - 53) (-1074)) with (- Zpos k)%Z
        by lia.
      rewrite <- Qmult_assoc, <- pow2_add.
      replace (Zpos k + - Zpos k)%Z with 0%Z by lia.
      change (pow2 0) with 1. ring.
Qed.

Lemma new_location_spec (q mt r : Z) :
  (0 <= r < mt)%Z ->
  let mrs := shr_record_of_loc q (new_location mt r) in
  half (shr_r mrs) * inject_Z mt <= inject_Z r
  /\ inject_Z r <= (half (shr_r mrs) + half (shr_s mrs)) * inject_Z mt.
Proof.
  intros Hr.
  assert (Hle : forall a b, (a <= b)%Z -> inject_Z a <= inject_Z b)
    by (intros a b H; rewrite <- Zle_Qle; exact H).
  pose proof (Hle 0%Z r ltac:(lia)) as H0.
  pose proof (Hle r mt ltac:(lia)) as H1.
  change (inject_Z 0) with 0 in H0.
  unfold new_location, new_location_even, new_location_odd.
  destruct (Z.even mt); destruct (Z.eqb_spec r 0) as [Hr0|Hr0];
    cbn [shr_record_of_loc shr_r shr_s half];
    try (rewrite Hr0; change (inject_Z 0) with 0; split; lra).
  - destruct (Z.compare_spec (2 * r) mt) as [H|H|H];
      cbn [shr_record_of_loc shr_r shr_s half].
    + pose proof (Hle _ _ (Z.eq_le_incl _ _ H)) as Ha.
      pose proof (Hle _ _ (Z.eq_le_incl _ _ (eq_sym H))) as Hb.
      rewrite inject_Z_mult in Ha, Hb. change (inject_Z 2) with 2 in *.
      split; lra.
    + pose proof (Hle (2 * r)%Z mt ltac:(lia)) as Ha.
      rewrite inject_Z_mult in Ha. change (inject_Z 2) with 2 in *.
      split; lra.
    + pose proof (Hle mt (2 * r)%Z ltac:(lia)) as Ha.
      rewrite inject_Z_mult in Ha. change (inject_Z 2) with 2 in *.
      split; lra.
  - destruct (Z.compare_spec (2 * r + 1) mt) as [H|H|H];
      cbn [shr_record_of_loc shr_r shr_s half].
    + pose proof (Hle (2 * r)%Z mt ltac:(lia)) as Ha.
      rewrite inject_Z_mult in Ha. change (inject_Z 2) with 2 in *.
      split; lra.
    + pose proof (Hle (2 * r)%Z mt ltac:(lia)) as Ha.
      rewrite inject_Z_mult in Ha. change (inject_Z 2) with 2 in *.
      split; lra.
    + pose proof (Hle mt (2 * r)%Z ltac:(lia)) as Ha.
      rewrite inject_Z_mult in Ha. change (inject_Z 2) with 2 in *.
      split; lra.
Qed.

(** The integer division inside [SFdiv] locates the exact quotient. *)
Lemma SFdiv_core_located (mc mt : positive) (ec et : Z) (X : Q) :
  X * (inject_Z (Zpos mt) * pow2 et) == inject_Z (Zpos mc) * pow2 ec ->
  let r := SFdiv_core_binary 53 1024 (Zpos mc) ec (Zpos mt) et in
  located X (snd (fst r)) (shr_record_of_loc (fst (fst r)) (snd r))
  /\ (snd (fst r)
      <= fexp 53 1024 (Zdigits2 (Zpos mc) + ec - (Zdigits2 (Zpos mt) + et)))%Z.
Proof.
  intros HX. unfold SFdiv_core_binary.
  set (e' := Z.min _ (ec - et)).
  set (m' := match (ec - et - e')%Z with
             | Zpos _ => Z.shiftl (Zpos mc) (ec - et - e')
             | Z0 => Zpos mc
             | Zneg _ => 0%Z
             end).
  assert (Hs : (0 <= ec - et - e')%Z) by (unfold e'; lia).
  assert (Hm' : m' = (Zpos mc * 2 ^ (ec - et - e'))%Z).
  { unfold m'. destruct (ec - et - e')%Z as [|k|k] eqn:Hk.
    - cbn. lia.
    - rewrite Z.shiftl_mul_pow2 by lia. reflexivity.
    - lia. }
  clearbody m'.
  pose proof (Z_div_mod m' (Zpos mt) eq_refl) as Hdiv.
  destruct (Z.div_eucl m' (Zpos mt)) as [q r]. destruct Hdiv as [Hqr Hr].
  cbn [fst snd]. split; [|unfold e'; lia].
  assert (Hq : (0 <= q)%Z).
  { assert (0 <= 2 ^ (ec - et - e'))%Z by (apply Z.pow_nonneg; lia). nia. }
  pose proof (pow2_pos e') as HA. pose proof (pow2_pos et) as HB.
  assert (Hec : pow2 ec == pow2 (ec - et - e') * pow2 e' * pow2 et).
  { rewrite <- !pow2_add. replace (ec - et - e' + e' + et)%Z with ec by lia.
    reflexivity. }
  assert (HM : inject_Z (Zpos mc) * pow2 (ec - et - e')
               == inject_Z (Zpos mt) * inject_Z q + inject_Z r).
  { rewrite <- pow2_Z by exact Hs.
    rewrite <- !inject_Z_mult, <- inject_Z_plus, <- Hqr, Hm'. reflexivity. }
  assert (HXT : X * inject_Z (Zpos mt)
                == (inject_Z (Zpos mt) * inject_Z q + inject_Z r) * pow2 e').
  { apply (Qmult_inj_r _ _ (pow2 et)); [lra|].
    rewrite <- HM. rewrite Hec in HX. lra. }
  pose proof (inject_pos mt) as HT.
  destruct (new_location_spec q (Zpos mt) r Hr) as [Hlo Hhi].
  unfold located. rewrite shr_record_of_loc_m. split; [exact Hq|]. split.
  - apply (Qmult_le_r _ _ (inject_Z (Zpos mt))); [lra|]. rewrite HXT. nra.
  - apply (Qmult_le_r _ _ (inject_Z (Zpos mt))); [lra|]. rewrite HXT. nra.
Qed.

(** A quotient below 1 of two positive doubles. *)
Lemma SFdiv_spec (mc mt : positive) (ec et : Z) (X : Q) :
  X * (inject_Z (Zpos mt) * pow2 et) == inject_Z (Zpos mc) * pow2 ec ->
  X < 1 ->
  exists M e : Z,
    (0 <= M)%Z /\ (e <= -52)%Z
    /\ SFdiv 53 1024 (S754_finite false mc ec) (S754_finite false mt et)
       = rounded M e
    /\ (inject_Z M - (1 # 2)) * pow2 e <= X
    /\ X <= (inject_Z M + (5 # 4)) * pow2 e.
Proof.
  intros HX H1. cbn [SFdiv xorb].
  destruct (SFdiv_core_located mc mt ec et X HX) as [Hl He].
  destruct (SFdiv_core_binary 53 1024 (Zpos mc) ec (Zpos mt) et) as [[q e'] l].
  cbn [fst snd] in Hl, He. rewrite fexp_unfold in He.
  assert (Hdig : (Zdigits2 (Zpos mc) + ec <= Zdigits2 (Zpos mt) + et)%Z).
  { pose proof (digits_lower mc) as Hc. pose proof (digits_upper mt) as Ht.
    pose proof (pow2_pos ec) as Hpc. pose proof (pow2_pos et) as Hpt.
    pose proof (inject_pos mt) as HT.
    assert (Hlt : pow2 (Zdigits2 (Zpos mc) - 1 + ec)
                  < pow2 (Zdigits2 (Zpos mt) + et)).
    { rewrite !pow2_add.
      assert (HTe : 0 < inject_Z (Zpos mt) * pow2 et) by nra.
      assert (H2 : inject_Z (Zpos mc) * pow2 ec
                   < inject_Z (Zpos mt) * pow2 et) by nra.
      assert (H3 : pow2 (Zdigits2 (Zpos mc) - 1) * pow2 ec
                   <= inject_Z (Zpos mc) * pow2 ec) by nra.
      assert (H4 : inject_Z (Zpos mt) * pow2 et
                   < pow2 (Zdigits2 (Zpos mt)) * pow2 et) by nra.
      lra. }
    apply pow2_lt_inv in Hlt. lia. }
  apply (binary_round_aux_spec 0 X q e' l Hl); [exact H1 | lia | lia].
Qed.

Lemma SFdiv_self (m : positive) (e : Z) :
  SFdiv 53 1024 (S754_finite false m e) (S754_finite false m e)
  = S754_finite false 4503599627370496 (-52).
Proof.
  cbn [SFdiv xorb]. unfold SFdiv_core_binary.
  rewrite !Z.sub_diag, fexp_unfold.
  change (Z.min (Z.max (0 - 53) (-1074)) 0) with (-53)%Z.
  change (0 - -53)%Z with 53%Z. cbv iota.
  rewrite Z.shiftl_mul_pow2 by lia.
  pose proof (Z_div_mod (Zpos m * 2 ^ 53) (Zpos m) eq_refl) as Hdiv.
  destruct (Z.div_eucl (Zpos m * 2 ^ 53) (Zpos m)) as [q r].
  destruct Hdiv as [Hqr Hr].
  assert (Hq : q = (2 ^ 53)%Z) by nia.
  assert (Hr0 : r = 0%Z) by nia.
  subst q r.
  replace (new_location (Zpos m) 0) with loc_Exact
    by (unfold new_location; destruct (Z.even (Zpos m)); reflexivity).
  reflexivity.
Qed.

(** A multiple of [2 ^ e] that is at most half a unit above an integer is
    at most the integer. *)
Lemma grid_le (M N e : Z) :
  (e <= 0)%Z ->
  (inject_Z M - (1 # 2)) * pow2 e <= inject_Z N ->
  inject_Z M * pow2 e <= inject_Z N.
Proof.
  intros He H. pose proof (pow2_pos e) as Hp.
  assert (Hk : pow2 e * inject_Z (2 ^ (- e)) == 1).
  { rewrite pow2_Z by lia. rewrite <- pow2_add.
    replace (e + - e)%Z with 0%Z by lia. reflexivity. }
  set (k := inject_Z (2 ^ (- e))) in *.
  assert (Hk0 : 0 < k) by nra.
  assert (HN : inject_Z N * k * pow2 e == inject_Z N).
  { rewrite <- Qmult_assoc, (Qmult_comm k), Hk. ring. }
  assert (H1 : inject_Z M - (1 # 2) <= inject_Z N * k).
  { apply (Qmult_le_r _ _ (pow2 e) Hp). rewrite HN. exact H. }
  assert (HZ : (M <= N * 2 ^ (- e))%Z).
  { destruct (Z_le_gt_dec M (N * 2 ^ (- e))) as [Hle|Hgt]; [exact Hle|].
    exfalso. assert (Hge : (N * 2 ^ (- e) + 1 <= M)%Z) by lia.
    rewrite Zle_Qle, inject_Z_plus, inject_Z_mult in Hge. fold k in Hge.
    change (inject_Z 1) with 1 in Hge. lra. }
  rewrite Zle_Qle, inject_Z_mult in HZ. fold k in HZ.
  rewrite <- HN. apply Qmult_le_compat_r; [exact HZ | lra].
Qed.

Lemma toQ_rounded (M e : Z) :
  (0 <= M)%Z ->
  exists v, toQ (rounded M e) = Some v /\ v == inject_Z M * pow2 e.
Proof.
  intros HM. destruct M as [|m|m]; [| |lia]; cbn [rounded toQ].
  - exists 0. split; [reflexivity|]. change (inject_Z 0) with 0. ring.
  - eexists. split; [reflexivity|]. ring.
Qed.

(** [completed / total * 100] in binary64, for counts below [2 ^ 51]. *)
Lemma percentage_spec (c t : positive) :
  (Zpos c <= Zpos t)%Z -> (Zpos t <= 2 ^ 51)%Z ->
  exists v,
    toQ (SFmul 53 1024
           (SFdiv 53 1024 (binary_normalize 53 1024 (Zpos c) 0 false)
              (binary_normalize 53 1024 (Zpos t) 0 false))
           (binary_normalize 53 1024 100 0 false)) = Some v
    /\ 0 <= v /\ v <= 100
    /\ inject_Z (Zpos c) / inject_Z (Zpos t) * 100 - (1 # 8796093022208) <= v
    /\ v <= inject_Z (Zpos c) / inject_Z (Zpos t) * 100 + (1 # 8796093022208)
    /\ ((Zpos c < Zpos t)%Z -> v < 100)
    /\ (c = t ->
        SFmul 53 1024
          (SFdiv 53 1024 (binary_normalize 53 1024 (Zpos c) 0 false)
             (binary_normalize 53 1024 (Zpos t) 0 false))
          (binary_normalize 53 1024 100 0 false)
        = S754_finite false 7036874417766400 (-46)).
Proof.
  intros Hct Ht.
  assert (Hc53 : (Zpos c < 2 ^ 53)%Z) by lia.
  assert (Ht53 : (Zpos t < 2 ^ 53)%Z) by lia.
  destruct (binary_normalize_exact c Hc53) as (mc & ec & Hnc & Hvc).
  destruct (binary_normalize_exact t Ht53) as (mt & et & Hnt & Hvt).
  rewrite Hnc, Hnt.
  pose proof (inject_pos c) as HC. pose proof (inject_pos t) as HT.
  set (C := inject_Z (Zpos c)) in *. set (T := inject_Z (Zpos t)) in *.
  set (X := C / T).
  assert (HXT : X * T == C) by (unfold X; field; lra).
  destruct (Z.eq_dec (Zpos c) (Zpos t)) as [E|NE].
  { injection E as ->. rewrite Hnc in Hnt. injection Hnt as <- <-.
    rewrite SFdiv_self. eexists. split; [reflexivity|].
    assert (HX1 : X == 1) by (unfold X, C, T; field; fold T; lra).
    rewrite HX1.
    repeat split; try (vm_compute; discriminate). lia. }
  assert (Hne : c = t -> False) by (intros E; apply NE; rewrite E; reflexivity).
  assert (HCT : C + 1 <= T).
  { unfold C, T. change 1 with (inject_Z 1).
    rewrite <- inject_Z_plus, <- Zle_Qle. lia. }
  assert (HT51 : T <= 2251799813685248).
  { unfold T. change 2251799813685248 with (inject_Z (2 ^ 51)).
    rewrite <- Zle_Qle. exact Ht. }
  assert (HX0 : 0 < X).
  { apply (Qmult_lt_r _ _ T); [lra|]. rewrite HXT. lra. }
  assert (HX1 : X < 1).
  { apply (Qmult_lt_r _ _ T); [lra|]. rewrite HXT. lra. }
  assert (HXeq : X * (inject_Z (Zpos mt) * pow2 et)
                 == inject_Z (Zpos mc) * pow2 ec).
  { rewrite Hvt, Hvc. exact HXT. }
  destruct (SFdiv_spec mc mt ec et X HXeq HX1)
    as (Mq & eq & HMq & Heq & Hq & Hqlow & Hqup).
  rewrite Hq. clear Hq.
  pose proof (pow2_pos eq) as Hpe.
  assert (Hpe52 : pow2 eq <= 1 # 4503599627370496).
  { change (1 # 4503599627370496) with (pow2 (-52)). apply pow2_le, Heq. }
  assert (HV1 : inject_Z Mq * pow2 eq <= 1).
  { change 1 with (inject_Z 1). apply grid_le; [lia|].
    change (inject_Z 1) with 1. lra. }
  change (binary_normalize 53 1024 100 0 false)
    with (S754_finite false 7036874417766400 (-46)).
  destruct Mq as [|mq|mq]; [| |lia]; cbn [rounded SFmul xorb].
  { exists 0. split; [reflexivity|]. change (inject_Z 0) with 0 in *.
    fold X. repeat split; try lra. intros E. destruct (Hne E). }
  set (V := inject_Z (Zpos mq) * pow2 eq) in *.
  assert (HVlow : V - (1 # 2) * pow2 eq <= X) by (unfold V; lra).
  assert (HVup : X <= V + (5 # 4) * pow2 eq) by (unfold V; lra).
  set (X3 := inject_Z (Zpos (mq * 7036874417766400)) * pow2 (eq + -46)).
  assert (HX3 : X3 == V * 100).
  { unfold X3, V. rewrite Pos2Z.inj_mul, inject_Z_mult, pow2_add.
    assert (H100 : inject_Z 7036874417766400 * pow2 (-46) == 100)
      by reflexivity.
    rewrite <- H100. ring. }
  assert (HX3lt : X3 < pow2 7).
  { change (pow2 7) with 128. rewrite HX3. lra. }
  destruct (binary_round_aux_spec 7 X3 _ _ _
              (located_exact (Zpos (mq * 7036874417766400)) (eq + -46)
                 (Pos2Z.is_nonneg _))
              HX3lt ltac:(lia) ltac:(lia))
    as (M3 & e3 & HM3 & He3 & H3 & Hlow3 & Hup3).
  rewrite H3. clear H3.
  destruct (toQ_rounded M3 e3 HM3) as (v & Hv & Hveq).
  exists v. split; [exact Hv|].
  pose proof (pow2_pos e3) as Hpe3.
  assert (Hpe45 : pow2 e3 <= 1 # 35184372088832).
  { change (1 # 35184372088832) with (pow2 (-45)). apply pow2_le, He3. }
  assert (Hv0 : 0 <= v).
  { rewrite Hveq. assert (0 <= inject_Z M3)
      by (change 0 with (inject_Z 0); rewrite <- Zle_Qle; exact HM3).
    nra. }
  assert (Hv100 : v <= 100).
  { rewrite Hveq. change 100 with (inject_Z 100). apply grid_le; [lia|].
    change (inject_Z 100) with 100. lra. }
  fold X.
  split; [exact Hv0|]. split; [exact Hv100|].
  split; [lra|]. split; [lra|].
  split; [|intros E; destruct (Hne E)].
  intros _.
  destruct (Qlt_le_dec v 100) as [Hlt|Hge]; [exact Hlt|]. exfalso.
  assert (HXlow : 1 - (3 # 9007199254740992) <= X) by lra.
  assert (HXT2 : (1 - (3 # 9007199254740992)) * T <= X * T) by nra.
  rewrite HXT in HXT2. nra.
Qed.

End Rounding.

Lemma percentage_gap (c c' t : nat) :
  c < c' -> t <> 0 -> (Z.of_nat t < 2 ^ 32)%Z ->
  (Spec.percentage c t + (1 # 4398046511104) <= Spec.percentage c' t)%Q.
Proof.
  intros Hc Ht Hb. unfold Spec.percentage.
  destruct (Nat.eqb_spec t 0) as [E|_]; [contradiction|].
  assert (HT : (1 <= inject_Z (Z.of_nat t))%Q).
  { change 1%Q with (inject_Z 1). rewrite <- Zle_Qle. lia. }
  assert (HT32 : (inject_Z (Z.of_nat t) <= 4294967296)%Q).
  { change 4294967296%Q with (inject_Z (2 ^ 32)). rewrite <- Zle_Qle. lia. }
  assert (HC : (inject_Z (Z.of_nat c) + 1 <= inject_Z (Z.of_nat c'))%Q).
  { change 1%Q with (inject_Z 1). rewrite <- inject_Z_plus, <- Zle_Qle. lia. }
  set (T := inject_Z (Z.of_nat t)) in *.
  set (C := inject_Z (Z.of_nat c)) in *.
  set (C' := inject_Z (Z.of_nat c')) in *.
  assert (HX : (C / T * T == C)%Q) by (field; lra).
  assert (HX' : (C' / T * T == C')%Q) by (field; lra).
  set (X := (C / T)%Q) in *. set (X' := (C' / T)%Q) in *.
  assert (Hd : (1 <= (X' - X) * T)%Q) by lra.
  assert (Hpos : (0 <= X' - X)%Q).
  { destruct (Qlt_le_dec (X' - X) 0) as [Hneg|Hok]; [|exact Hok]. nra. }
  assert (Hd32 : (1 <= (X' - X) * 4294967296)%Q) by nra.
  lra.
Qed.

Lemma progressPercentage_counters (s s' : State) :
  completedQueueCount s = completedQueueCount s' ->
  totalQueueCount s = totalQueueCount s' ->
  Binary64.progressPercentage s = Binary64.progressPercentage s'.
Proof.
  intros Hc Ht. unfold Binary64.progressPercentage. rewrite Hc, Ht.
  reflexivity.
Qed.

(** The percentage of counters [completed <= total], total not 0: a
    number from 0 to 100, within [2 ^ -43] of the exact
    completed/total x 100, below 100 while completed is below total and the
    double 100 when they are equal. *)
Lemma progressPercentage_spec (s : State) :
  completedQueueCount s <= totalQueueCount s ->
  totalQueueCount s <> 0 ->
  (Z.of_nat (totalQueueCount s) <= 2 ^ 51)%Z ->
  exists v,
    Binary64.toQ (Binary64.progressPercentage s) = Some v
    /\ (0 <= v)%Q /\ (v <= 100)%Q
    /\ (Spec.percentage (completedQueueCount s) (totalQueueCount s)
        - (1 # 8796093022208) <= v)%Q
    /\ (v <= Spec.percentage (completedQueueCount s) (totalQueueCount s)
             + (1 # 8796093022208))%Q
    /\ (completedQueueCount s < totalQueueCount s -> (v < 100)%Q)
    /\ (completedQueueCount s = totalQueueCount s ->
        Binary64.progressPercentage s = Binary64.ofNat 100).
Proof.
  intros Hc Ht Hb. unfold Binary64.progressPercentage, Spec.percentage.
  destruct (Nat.eqb_spec (totalQueueCount s) 0) as [E|_]; [contradiction|].
  change (Binary64.ofNat 100) with (S754_finite false 7036874417766400 (-46)).
  unfold Binary64.ofNat, Binary64.prec, Binary64.emax.
  destruct (Z.of_nat (totalQueueCount s)) as [|t|t] eqn:Et; try lia.
  destruct (Z.of_nat (completedQueueCount s)) as [|c|c] eqn:Ec; try lia.
  - destruct (binary_normalize_exact t ltac:(lia)) as (mt & et & Hnt & _).
    rewrite Hnt. exists 0%Q. split; [reflexivity|].
    assert (Hz : (inject_Z 0 / inject_Z (Zpos t) * 100 == 0)%Q)
      by (change (inject_Z 0) with 0%Q; unfold Qdiv; ring).
    rewrite Hz. repeat split; try (intros; lra). intros. lia.
  - destruct (percentage_spec c t ltac:(lia) ltac:(lia))
      as (v & Hv & H0 & H100 & Hlo & Hup & Hlt & Heq).
    exists v. split; [exact Hv|]. split; [exact H0|]. split; [exact H100|].
    split; [exact Hlo|]. split; [exact Hup|]. split.
    + intros H. apply Hlt. lia.
    + intros H. apply Heq. lia.
Qed.

(** The rounding shows: 7 of 25 prompts make 28.000000000000004. *)
Lemma percentage_seven_of_25 :
  Binary64.progressPercentage (withCounters 7 25)
  = S754_finite false 7881299347898369 (-48)
  /\ Binary64.toQ (Binary64.progressPercentage (withCounters 7 25))
     = Some (1 * inject_Z 7881299347898369 * Binary64.pow2 (-48))%Q
  /\ (Spec.percentage 7 25 == 28)%Q
  /\ (1 * inject_Z 7881299347898369 * Binary64.pow2 (-48)
      == 28 + (1 # 281474976710656))%Q.
Proof. repeat split. Qed.

(** * The claims *)

(** C2, as the code has it: the prompt list is the outer-trimmed input
    split at the newlines, without the lines that are empty or whitespace
    only; the lines that stay are kept whole, with the whitespace they
    begin or end with.  Trimmed, they are the specification's splitter
    output; none of them is empty or whitespace only; and they stand in the
    order of the lines. *)
Theorem promptsToProcess_keeps_whole_lines (raw : string) :
  promptsToProcess raw
  = List.filter (fun line => negb (isBlank line))
      (JS.split JS.LF (JS.trim raw))
  /\ map JS.trim (promptsToProcess raw) = Spec.splitter raw
  /\ Forall (fun p => p <> "" /\ isBlank p = false /\ JS.trim p <> "")
       (promptsToProcess raw)
  /\ sublist (promptsToProcess raw) (JS.split JS.LF (JS.trim raw)).
Proof.
  split; [apply promptsToProcess_filter|].
  split.
  { unfold Spec.splitter, promptsToProcess. rewrite filter_map_comm.
    f_equal. apply filter_ext. intros line. rewrite isEmpty_eqb. reflexivity. }
  split.
  { rewrite promptsToProcess_filter.
    eapply Forall_impl; [apply filter_Forall|].
    intros p Hp. apply negb_true_iff in Hp.
    repeat split; [| exact Hp |].
    - intros ->. discriminate Hp.
    - intros Ht. rewrite <- trim_blank, Ht in Hp. discriminate Hp. }
  unfold promptsToProcess. apply filter_sublist.
Qed.

(** C2 as stated fails: a line of the batch that ends in a space is
    processed with its space, where trimming each line would drop it. *)
Lemma promptsToProcess_lines_not_trimmed :
  promptsToProcess ("a " ++ newline ++ "b")%string = ["a "; "b"]
  /\ Spec.splitter ("a " ++ newline ++ "b")%string = ["a"; "b"]
  /\ promptsToProcess ("a " ++ newline ++ "b")%string
     <> Spec.splitter ("a " ++ newline ++ "b")%string.
Proof. repeat split; try reflexivity. discriminate. Qed.

(** A batch pasted with Windows line endings: the carriage return stays
    on the first prompt, and ends up as a second underscore in its file
    name. *)
Lemma carriage_return_kept :
  promptsToProcess ("a cat" ++ String JS.CR newline ++ "a dog")%string
  = [("a cat" ++ String JS.CR "")%string; "a dog"]
  /\ filename ("a cat" ++ String JS.CR "")%string 0 = "a_cat__1.jpeg".
Proof. split; reflexivity. Qed.

(** C3: for counters with completed <= total (and a total of at most
    [2 ^ 51], beyond any array length), the percentage that line 70 computes
    in binary64 is +0 when the total is 0; for any other total it is the
    rounded product by 100 of the rounded quotient completed / total.  It
    is a number from 0 to 100 within [2 ^ -43] of the exact
    completed/total x 100, and for a total that is not 0 it is 100 exactly
    when completed equals total (then it is the double 100 itself). *)
Theorem progressPercentage_binary64 (s : State) :
  completedQueueCount s <= totalQueueCount s ->
  (Z.of_nat (totalQueueCount s) <= 2 ^ 51)%Z ->
  (totalQueueCount s = 0 -> Binary64.progressPercentage s = S754_zero false)
  /\ (totalQueueCount s <> 0 ->
      Binary64.progressPercentage s
      = SFmul Binary64.prec Binary64.emax
          (SFdiv Binary64.prec Binary64.emax
             (Binary64.ofNat (completedQueueCount s))
             (Binary64.ofNat (totalQueueCount s)))
          (Binary64.ofNat 100))
  /\ exists v,
       Binary64.toQ (Binary64.progressPercentage s) = Some v
       /\ (0 <= v)%Q /\ (v <= 100)%Q
       /\ (Spec.percentage (completedQueueCount s) (totalQueueCount s)
           - (1 # 8796093022208) <= v)%Q
       /\ (v <= Spec.percentage (completedQueueCount s) (totalQueueCount s)
                + (1 # 8796093022208))%Q
       /\ (totalQueueCount s = 0 -> (v == 0)%Q)
       /\ (totalQueueCount s <> 0 ->
           ((v == 100)%Q <-> completedQueueCount s = totalQueueCount s)
           /\ (Binary64.progressPercentage s = Binary64.ofNat 100
               <-> completedQueueCount s = totalQueueCount s)).
Proof.
  intros Hc Hb. split; [|split].
  - intros E. unfold Binary64.progressPercentage. rewrite E. reflexivity.
  - intros Ht. unfold Binary64.progressPercentage.
    destruct (Nat.eqb_spec (totalQueueCount s) 0); [contradiction|reflexivity].
  - destruct (Nat.eq_dec (totalQueueCount s) 0) as [E|Ht].
    + exists 0%Q. unfold Binary64.progressPercentage, Spec.percentage.
      rewrite E. cbn [Nat.eqb].
      split; [reflexivity|]. split; [lra|]. split; [lra|].
      split; [lra|]. split; [lra|]. split; [intros _; reflexivity|].
      intros H. destruct (H eq_refl).
    + destruct (progressPercentage_spec s Hc Ht Hb)
        as (v & Hv & H0 & H100 & Hlo & Hup & Hlt & Heq).
      exists v. split; [exact Hv|]. split; [exact H0|]. split; [exact H100|].
      split; [exact Hlo|]. split; [exact Hup|].
      split; [intros E; contradiction|]. intros _.
      assert (Hfull : Binary64.toQ (Binary64.ofNat 100)
                      = Some (1 * inject_Z 7036874417766400
                              * Binary64.pow2 (-46))%Q) by reflexivity.
      assert (H100' : (1 * inject_Z 7036874417766400 * Binary64.pow2 (-46)
                       == 100)%Q) by reflexivity.
      split; split.
      * intros Hv100.
        destruct (Nat.eq_dec (completedQueueCount s) (totalQueueCount s))
          as [E|NE]; [exact E|].
        exfalso. assert (Hlt' : (v < 100)%Q) by (apply Hlt; lia). lra.
      * intros E. rewrite (Heq E), Hfull in Hv. injection Hv as <-.
        exact H100'.
      * intros Hpp.
        destruct (Nat.eq_dec (completedQueueCount s) (totalQueueCount s))
          as [E|NE]; [exact E|].
        exfalso. assert (Hlt' : (v < 100)%Q) by (apply Hlt; lia).
        rewrite Hpp, Hfull in Hv. injection Hv as <-.
        rewrite H100' in Hlt'. lra.
      * exact Heq.
Qed.

Lemma progressPercentage_seven_of_25 :
  (totalQueueCount (withCounters 7 25) = 0 ->
   Binary64.progressPercentage (withCounters 7 25) = S754_zero false)
  /\ (totalQueueCount (withCounters 7 25) <> 0 ->
      Binary64.progressPercentage (withCounters 7 25)
      = SFmul Binary64.prec Binary64.emax
          (SFdiv Binary64.prec Binary64.emax
             (Binary64.ofNat (completedQueueCount (withCounters 7 25)))
             (Binary64.ofNat (totalQueueCount (withCounters 7 25))))
          (Binary64.ofNat 100))
  /\ exists v,
       Binary64.toQ (Binary64.progressPercentage (withCounters 7 25)) = Some v
       /\ (0 <= v)%Q /\ (v <= 100)%Q
       /\ (Spec.percentage (completedQueueCount (withCounters 7 25))
             (totalQueueCount (withCounters 7 25))
           - (1 # 8796093022208) <= v)%Q
       /\ (v <= Spec.percentage (completedQueueCount (withCounters 7 25))
                  (totalQueueCount (withCounters 7 25))
                + (1 # 8796093022208))%Q
       /\ (totalQueueCount (withCounters 7 25) = 0 -> (v == 0)%Q)
       /\ (totalQueueCount (withCounters 7 25) <> 0 ->
           ((v == 100)%Q
            <-> completedQueueCount (withCounters 7 25)
                = totalQueueCount (withCounters 7 25))
           /\ (Binary64.progressPercentage (withCounters 7 25)
               = Binary64.ofNat 100
               <-> completedQueueCount (withCounters 7 25)
                   = totalQueueCount (withCounters 7 25))).
Proof.
  apply (progressPercentage_binary64 (withCounters 7 25)).
  - cbn. lia.
  - vm_compute. discriminate.
Defined.

(** C4: a call of [generateImages] made while the busy flag is set, or with
    a prompt text that trims to the empty string, changes no signal (Result
    Store, busy flag and queue counters among them), issues no request and
    never suspends. *)
Theorem generateImages_refused (w : World) (s : State) :
  isLoading s = true \/ JS.trim (prompts s) = "" ->
  generateImages_start s = (Normal Finished, s, [])
  /\ generateImages w s = Some (mkRun s [] [] (Normal tt)).
Proof.
  intros H.
  assert (Hs : generateImages_start s = (Normal Finished, s, [])).
  { apply start_refused. destruct H as [H | H]; [left; exact H | right].
    unfold JS.truthy. rewrite H. reflexivity. }
  split; [exact Hs|].
  unfold generateImages. rewrite Hs. apply drive_finished.
Qed.

Lemma generateImages_refused_blank_or_busy :
  (generateImages_start blankState = (Normal Finished, blankState, [])
   /\ generateImages catDogWorld blankState
      = Some (mkRun blankState [] [] (Normal tt)))
  /\ (generateImages_start (set_isLoading true catDogState)
      = (Normal Finished, set_isLoading true catDogState, [])
      /\ generateImages catDogWorld (set_isLoading true catDogState)
         = Some (mkRun (set_isLoading true catDogState) [] [] (Normal tt))).
Proof.
  split.
  - apply (generateImages_refused catDogWorld blankState).
    right. reflexivity.
  - apply (generateImages_refused catDogWorld (set_isLoading true catDogState)).
    left. reflexivity.
Defined.

(** C5, as the code has it: for a non-empty image, [downloadImage] clicks a
    link whose download name is the prompt in lower case, without the
    characters outside a-z, 0-9, the hyphen and whitespace (every whitespace
    character stays, not the space alone), with each whitespace run turned
    into one underscore, cut to 50 characters, [generated_image] if nothing
    is left, followed by [_<index+1>.jpeg].  "A Cat! @Sunset#" at index 0
    gives [a_cat_sunset_1.jpeg]; an empty prompt, or one made of stripped
    characters only, gives [generated_image_1.jpeg]. *)
Theorem downloadImage_filename (imageB64 prompt_ : string) (index : nat)
    (s : State) :
  JS.truthy imageB64 = true ->
  downloadImage imageB64 prompt_ index s
  = (Normal tt, s, [LinkClick imageB64 (filename prompt_ index)])
  /\ filename prompt_ index = Spec.filenameAmended prompt_ index
  /\ filename "A Cat! @Sunset#" 0 = "a_cat_sunset_1.jpeg"
  /\ (allStripped prompt_ = true ->
      filename prompt_ 0 = "generated_image_1.jpeg").
Proof.
  intros Himg. split.
  { unfold downloadImage. rewrite Himg. reflexivity. }
  split; [apply filename_amended|].
  split; [reflexivity|].
  intros Hp. rewrite filename_amended.
  unfold Spec.filenameAmended, Spec.filenameWith.
  rewrite (allStripped_strip prompt_ Hp). reflexivity.
Qed.

Lemma downloadImage_filename_symbols :
  downloadImage "data:image/jpeg;base64,AAA" "#!?" 0 initialState
  = (Normal tt, initialState,
     [LinkClick "data:image/jpeg;base64,AAA" (filename "#!?" 0)])
  /\ filename "#!?" 0 = Spec.filenameAmended "#!?" 0
  /\ filename "A Cat! @Sunset#" 0 = "a_cat_sunset_1.jpeg"
  /\ (allStripped "#!?" = true -> filename "#!?" 0 = "generated_image_1.jpeg").
Proof.
  apply (downloadImage_filename "data:image/jpeg;base64,AAA" "#!?" 0
           initialState).
  reflexivity.
Defined.

(** C5 as stated fails: a tab inside the prompt is not stripped, it becomes
    an underscore. *)
Lemma filename_keeps_tab :
  filename ("a" ++ tab ++ "b")%string 0 = "a_b_1.jpeg"
  /\ Spec.filenameWritten ("a" ++ tab ++ "b")%string 0 = "ab_1.jpeg"
  /\ filename ("a" ++ tab ++ "b")%string 0
     <> Spec.filenameWritten ("a" ++ tab ++ "b")%string 0.
Proof. repeat split; try reflexivity. discriminate. Qed.

Lemma catDog_prompts : promptsToProcess catDogText = ["a cat"; "a dog"].
Proof. reflexivity. Qed.

(** C1: the batch "a cat", "a dog" with ratio 1:1, one image, no preset and
    model gemini-2.5-flash-image, against a client that returns one image
    for "a cat" and fails with message "quota exceeded" for "a dog", ends
    with the Result Store holding the success entry of the cat and the
    error entry of the dog. *)
Theorem generateImages_cat_dog (w : World) (s : State) :
  quiet w ->
  isLoading s = false ->
  prompts s = catDogText ->
  aspectRatio s = Ratio_1_1 ->
  numberOfImages s = 1%Q ->
  stylePreset s = "" ->
  model s = gemini_2_5_flash_image ->
  (forall j, generateImage w j
               (mkRequest "a cat" Ratio_1_1 1 gemini_2_5_flash_image)
             = Normal ["data:image/jpeg;base64,AAA"]) ->
  (forall j, generateImage w j
               (mkRequest "a dog" Ratio_1_1 1 gemini_2_5_flash_image)
             = Throw (JsError "quota exceeded")) ->
  exists r,
    generateImages w s = Some r
    /\ results (final r)
       = [ mkResult "a cat" success (Some ["data:image/jpeg;base64,AAA"]) None;
           mkResult "a dog" error None (Some "quota exceeded") ].
Proof.
  intros Hquiet Hbusy Htext Hratio Hcount Hstyle Hmodel Hcat Hdog.
  destruct (batch_run w s Hquiet Hbusy) as (r & Hr & Hloop).
  { rewrite Htext. reflexivity. }
  exists r. split; [exact Hr|].
  destruct Hloop as (_ & _ & _ & Hstore & _).
  rewrite Hstore, Htext, catDog_prompts.
  unfold storeAfter, answers, requestOf, effectivePrompt.
  rewrite Hratio, Hcount, Hstyle, Hmodel. cbn.
  rewrite Hcat, Hdog. reflexivity.
Qed.

Lemma quiet_catDogWorld : quiet catDogWorld.
Proof. intros n s. repeat split. Qed.

Lemma generateImages_cat_dog_run :
  exists r,
    generateImages catDogWorld catDogState = Some r
    /\ results (final r)
       = [ mkResult "a cat" success (Some ["data:image/jpeg;base64,AAA"]) None;
           mkResult "a dog" error None (Some "quota exceeded") ].
Proof.
  apply (generateImages_cat_dog catDogWorld catDogState);
    try reflexivity.
  intros n s. repeat split.
Defined.

(** C6: in a batch, the prompt sent to the Generation Client is the raw
    prompt followed by a comma, a space and the style preset read when the
    batch started, or the raw prompt itself when that preset is empty; the
    prompt stored in the Result Store is the raw prompt, at every
    suspension and at the end, however the requests settle and whatever
    preset is chosen meanwhile. *)
Theorem style_is_request_only (w : World) (s : State) :
  quiet w ->
  isLoading s = false ->
  JS.truthy (JS.trim (prompts s)) = true ->
  exists r,
    generateImages w s = Some r
    /\ map finalPrompt (requestsOf (effects r))
       = map (effectivePrompt (stylePreset s)) (promptsToProcess (prompts s))
    /\ map prompt (results (final r)) = promptsToProcess (prompts s)
    /\ Forall (fun obs =>
                 map prompt (results (snd obs)) = promptsToProcess (prompts s))
         (suspensions r).
Proof.
  intros Hquiet Hbusy Htext.
  destruct (batch_run w s Hquiet Hbusy Htext) as (r & Hr & Hloop).
  exists r. split; [exact Hr|].
  destruct Hloop as (_ & _ & _ & Hstore & _ & Hreq & _ & _ & Hsteps & _).
  split; [|split].
  - rewrite Hreq. cbn [drop]. apply effectivePrompt_requests.
  - rewrite Hstore. apply storeAfter_prompts.
  - eapply Forall_impl; [exact Hsteps|].
    intros obs Hobs. unfold storeInStep in Hobs. rewrite Hobs.
    apply storeAfter_prompts.
Qed.

Lemma style_is_request_only_painted :
  exists r,
    generateImages catDogWorld paintedState = Some r
    /\ map finalPrompt (requestsOf (effects r))
       = map (effectivePrompt (stylePreset paintedState))
           (promptsToProcess (prompts paintedState))
    /\ map prompt (results (final r)) = promptsToProcess (prompts paintedState)
    /\ Forall (fun obs =>
                 map prompt (results (snd obs))
                 = promptsToProcess (prompts paintedState))
         (suspensions r).
Proof.
  apply (style_is_request_only catDogWorld paintedState).
  - exact quiet_catDogWorld.
  - reflexivity.
  - reflexivity.
Defined.

(** C7: in a run over a batch of N prompts (N is at least 1), the completed
    count is 0 at the first suspension and (j + 1) / 2 at suspension j: it
    is i while the request of prompt i is awaited and i + 1 once it has
    settled, on success and on failure alike.  The busy flag is set and the
    count is below N at every suspension; at the end the flag is cleared
    and the count is N. *)
Theorem completed_counts_settled_prompts (w : World) (s : State) :
  quiet w ->
  isLoading s = false ->
  JS.truthy (JS.trim (prompts s)) = true ->
  exists r,
    generateImages w s = Some r
    /\ 0 < length (promptsToProcess (prompts s))
    /\ (forall j obs,
          suspensions r !! j = Some obs ->
          completedQueueCount (snd obs) = (j + 1) / 2)
    /\ Forall (midBatch (length (promptsToProcess (prompts s))))
         (suspensions r)
    /\ awaitedRequests (suspensions r)
       = seq 0 (length (promptsToProcess (prompts s)))
    /\ length (suspensions r) = 2 * length (promptsToProcess (prompts s)) - 1
    /\ completedQueueCount (final r) = length (promptsToProcess (prompts s))
    /\ isLoading (final r) = false.
Proof.
  intros Hquiet Hbusy Htext.
  destruct (batch_run w s Hquiet Hbusy Htext) as (r & Hr & Hloop).
  exists r. split; [exact Hr|].
  destruct Hloop
    as (Hidle & _ & Hdone & _ & _ & _ & Hawait & Hmid & _ & Hlen & Hcount).
  split; [apply promptsToProcess_nonempty; exact Htext|].
  split; [exact Hcount|].
  split; [exact Hmid|].
  split; [exact Hawait|].
  split; [exact Hlen|].
  split; [exact Hdone | exact Hidle].
Qed.

Lemma completed_counts_cat_dog :
  exists r,
    generateImages catDogWorld catDogState = Some r
    /\ 0 < length (promptsToProcess (prompts catDogState))
    /\ (forall j obs,
          suspensions r !! j = Some obs ->
          completedQueueCount (snd obs) = (j + 1) / 2)
    /\ Forall (midBatch (length (promptsToProcess (prompts catDogState))))
         (suspensions r)
    /\ awaitedRequests (suspensions r)
       = seq 0 (length (promptsToProcess (prompts catDogState)))
    /\ length (suspensions r)
       = 2 * length (promptsToProcess (prompts catDogState)) - 1
    /\ completedQueueCount (final r)
       = length (promptsToProcess (prompts catDogState))
    /\ isLoading (final r) = false.
Proof.
  apply (completed_counts_settled_prompts catDogWorld catDogState).
  - exact quiet_catDogWorld.
  - reflexivity.
  - reflexivity.
Defined.

(** C8, as the code has it: when the request of the prompt at position [i]
    fails, the run ends with entry [i] in status error, without images and
    with its raw prompt kept.  Its error field holds the message of the
    thrown value whenever that value is an [Error], an empty message
    included, and the text "An unknown error occurred" whenever it is
    anything else.  But for an [Error] of empty message, it holds what the
    specification's wording asks for. *)
Theorem failed_prompt_entry (w : World) (s : State) (i : nat) (p : string)
    (v : JsValue) :
  quiet w ->
  isLoading s = false ->
  JS.truthy (JS.trim (prompts s)) = true ->
  promptsToProcess (prompts s) !! i = Some p ->
  generateImage w i (requestOf s p) = Throw v ->
  exists r,
    generateImages w s = Some r
    /\ (forall message,
          v = JsError message ->
          results (final r) !! i
          = Some (mkResult p error None (Some message)))
    /\ (instanceofError v = false ->
        results (final r) !! i
        = Some (mkResult p error None (Some "An unknown error occurred")))
    /\ (v <> JsError "" ->
        results (final r) !! i
        = Some (mkResult p error None (Some (Spec.errorText v)))).
Proof.
  intros Hquiet Hbusy Htext Hp Hfail.
  destruct (batch_run w s Hquiet Hbusy Htext) as (r & Hr & Hloop).
  exists r. split; [exact Hr|].
  destruct Hloop as (_ & _ & _ & Hstore & _).
  assert (Hentry : results (final r) !! i
                   = Some (mkResult p error None (Some (errorMessage v)))).
  { rewrite Hstore, (storeAfter_lookup _ _ i p Hp).
    unfold answers. rewrite Hfail. reflexivity. }
  split; [|split].
  - intros message ->. exact Hentry.
  - intros Hv. destruct v; try exact Hentry. discriminate Hv.
  - intros Hv. destruct v as [| | |message]; try exact Hentry.
    destruct message as [|c message]; [contradiction|]. exact Hentry.
Qed.

Lemma quiet_stringThrower : quiet stringThrower.
Proof. intros n s. repeat split. Qed.

Lemma failed_prompt_entry_bare_string :
  exists r,
    generateImages stringThrower paintedState = Some r
    /\ (forall message,
          JsString "rate limited" = JsError message ->
          results (final r) !! 1
          = Some (mkResult "a dog" error None (Some message)))
    /\ (instanceofError (JsString "rate limited") = false ->
        results (final r) !! 1
        = Some (mkResult "a dog" error None
                  (Some "An unknown error occurred")))
    /\ (JsString "rate limited" <> JsError "" ->
        results (final r) !! 1
        = Some (mkResult "a dog" error None
                  (Some (Spec.errorText (JsString "rate limited"))))).
Proof.
  apply (failed_prompt_entry stringThrower paintedState 1 "a dog"
           (JsString "rate limited")).
  - exact quiet_stringThrower.
  - reflexivity.
  - reflexivity.
  - reflexivity.
  - reflexivity.
Defined.

(** C8 as stated fails for an [Error] whose message is empty: the failure
    carries no message, and the entry holds the empty string, not the
    generic text. *)
Lemma failed_prompt_entry_empty_message :
  exists r,
    generateImages silentFailure catDogState = Some r
    /\ promptsToProcess (prompts catDogState) !! 0 = Some "a cat"
    /\ generateImage silentFailure 0 (requestOf catDogState "a cat")
       = Throw (JsError "")
    /\ Spec.carriedMessage (JsError "") = None
    /\ Spec.errorText (JsError "") = "An unknown error occurred"
    /\ results (final r) !! 0 = Some (mkResult "a cat" error None (Some ""))
    /\ results (final r) !! 0
       <> Some (mkResult "a cat" error None
                 (Some (Spec.errorText (JsError "")))).
Proof.
  eexists. split; [vm_compute; reflexivity|].
  repeat split. cbn. discriminate.
Qed.

(** A thrown plain object is no [Error]: its [message] property is not
    read, and the entry holds the generic text. *)
Lemma thrown_object_message_ignored :
  exists r,
    generateImages objectThrower catDogState = Some r
    /\ results (final r) !! 0
       = Some (mkResult "a cat" error None (Some "An unknown error occurred")).
Proof. eexists. split; [vm_compute; reflexivity | reflexivity]. Qed.

(** C9: [downloadAllAsZip] called with the flag clear sets the flag and
    suspends on the packaging; any call made while the flag is set returns
    at once, with no signal changed and nothing done; when the packaging
    answers, the call ends normally with the flag cleared, whatever other
    handlers did meanwhile: the package was saved, or the failure was
    logged with [console.error] and not thrown on.  With no eligible image
    the archive is empty and the call ends the same way. *)
Theorem downloadAllAsZip_single_flight (p : Packaging)
    (between : State -> State) (s : State) :
  isZipping s = false ->
  downloadAllAsZip_start s
  = (Normal (AwaitArchive (buildZip (results s))), set_isZipping true s,
     [ZipGenerateAsync (buildZip (results s))])
  /\ (forall q b t,
        isZipping t = true -> downloadAllAsZip q b t = (Normal tt, t, []))
  /\ downloadAllAsZip p between s
     = (Normal tt, set_isZipping false (between (set_isZipping true s)),
        ZipGenerateAsync (buildZip (results s))
          :: archiveReport p (buildZip (results s)))
  /\ isZipping (snd (fst (downloadAllAsZip p between s))) = false
  /\ (forall v,
        archiveFailure p (buildZip (results s)) = Some v ->
        archiveReport p (buildZip (results s))
        = [ConsoleError "Failed to create zip file:" v])
  /\ (eligibleImages (results s) = [] -> buildZip (results s) = []).
Proof.
  intros Hflag.
  assert (Hrun : downloadAllAsZip p between s
                 = (Normal tt,
                    set_isZipping false (between (set_isZipping true s)),
                    ZipGenerateAsync (buildZip (results s))
                      :: archiveReport p (buildZip (results s)))).
  { unfold downloadAllAsZip.
    rewrite (zip_start_accepted s Hflag), zip_resume. reflexivity. }
  split; [apply zip_start_accepted; exact Hflag|].
  split.
  { intros q b t Ht. unfold downloadAllAsZip.
    rewrite (zip_start_refused t Ht). reflexivity. }
  split; [exact Hrun|].
  split; [rewrite Hrun; reflexivity|].
  split.
  { intros v. unfold archiveFailure, archiveReport.
    destruct (generateAsync p (buildZip (results s))) as [content | e].
    - destruct (saveAs p content "generated_images.zip") as [[] | e];
        [discriminate|].
      intros [= ->]. reflexivity.
    - intros [= ->]. reflexivity. }
  intros Hnone. apply length_zero_iff_nil.
  pose proof (buildZip_length (results s)) as H.
  rewrite Hnone in H. cbn in H. lia.
Qed.

Lemma downloadAllAsZip_single_flight_failing :
  downloadAllAsZip_start twinState
  = (Normal (AwaitArchive (buildZip (results twinState))),
     set_isZipping true twinState,
     [ZipGenerateAsync (buildZip (results twinState))])
  /\ (forall q b t,
        isZipping t = true -> downloadAllAsZip q b t = (Normal tt, t, []))
  /\ downloadAllAsZip packagingFails restyle twinState
     = (Normal tt, set_isZipping false (restyle (set_isZipping true twinState)),
        ZipGenerateAsync (buildZip (results twinState))
          :: archiveReport packagingFails (buildZip (results twinState)))
  /\ isZipping (snd (fst (downloadAllAsZip packagingFails restyle twinState)))
     = false
  /\ (forall v,
        archiveFailure packagingFails (buildZip (results twinState)) = Some v ->
        archiveReport packagingFails (buildZip (results twinState))
        = [ConsoleError "Failed to create zip file:" v])
  /\ (eligibleImages (results twinState) = [] ->
      buildZip (results twinState) = []).
Proof.
  apply (downloadAllAsZip_single_flight packagingFails restyle twinState).
  reflexivity.
Defined.

(** C10: the archive name of an image depends on the sanitized prompt and
    the image's index within its prompt only.  There is a Result Store with
    two different successful prompts, one eligible image each, whose images
    get one and the same name: the archive then holds that name once, with
    the data of the later image, and the saved package has fewer files than
    there are eligible images. *)
Theorem archive_names_collide :
  (forall p1 p2 i,
     sanitizedPrompt p1 = sanitizedPrompt p2 -> filename p1 i = filename p2 i)
  /\ exists (rs : list ImageGenerationResult) (r1 r2 : ImageGenerationResult)
       (img1 img2 data2 : string),
       rs = [r1; r2]
       /\ isSuccessful r1 = true /\ isSuccessful r2 = true
       /\ prompt r1 <> prompt r2
       /\ images r1 = Some [img1] /\ images r2 = Some [img2]
       /\ eligibleImages rs = [img1; img2]
       /\ base64Data img2 = Some data2
       /\ filename (prompt r1) 0 = filename (prompt r2) 0
       /\ buildZip rs = [(filename (prompt r2) 0, data2)]
       /\ length (buildZip rs) < length (eligibleImages rs)
       /\ downloadAllAsZip packagingWorks (fun t => t)
            (mkState "" Ratio_1_1 1 rs false false "" gemini_2_5_flash_image
               2 2 2)
          = (Normal tt,
             mkState "" Ratio_1_1 1 rs false false "" gemini_2_5_flash_image
               2 2 2,
             [ZipGenerateAsync [("a_cat_1.jpeg", "BBB")];
              Saved [("a_cat_1.jpeg", "BBB")] "generated_images.zip"]).
Proof.
  split.
  { intros p1 p2 i H. unfold filename. rewrite H. reflexivity. }
  exists twinStore,
    (mkResult "a cat!" success (Some ["data:image/jpeg;base64,AAA"]) None),
    (mkResult "a cat?" success (Some ["data:image/jpeg;base64,BBB"]) None),
    "data:image/jpeg;base64,AAA", "data:image/jpeg;base64,BBB", "BBB".
  repeat split; try reflexivity.
  - discriminate.
  - vm_compute. lia.
Qed.

(** * Further properties of the component *)

(** ** The image count *)

Lemma Qle_bool_false (a b : Q) : Qle_bool a b = false -> (b < a)%Q.
Proof.
  intros H. apply Qnot_le_lt. intros Hle.
  apply Qle_bool_iff in Hle. congruence.
Qed.

Lemma clamp_range (q : Q) : (1 <= mathMax 1 (mathMin 4 q) <= 4)%Q.
Proof.
  unfold mathMax, mathMin.
  destruct (Qle_bool 4 q) eqn:H4.
  - cbn. split; discriminate.
  - apply Qle_bool_false in H4.
    destruct (Qle_bool 1 q) eqn:H1.
    + apply Qle_bool_iff in H1. split; [exact H1 | apply Qlt_le_weak, H4].
    + split; [apply Qle_refl | discriminate].
Qed.

(** X1: whatever the input field holds, [onNumberOfImagesChange] leaves the
    image count between 1 and 4, writes no other signal, does nothing else
    and does not throw. *)
Theorem onNumberOfImagesChange_range (valueAsNumber : option Q) (s : State) :
  exists n : Q,
    onNumberOfImagesChange valueAsNumber s
    = (Normal tt, set_numberOfImages n s, [])
    /\ (1 <= n <= 4)%Q
    /\ (1 <= numberOfImages
               (snd (fst (onNumberOfImagesChange valueAsNumber s))) <= 4)%Q.
Proof.
  destruct valueAsNumber as [q|].
  - exists (mathMax 1 (mathMin 4 q)).
    split; [reflexivity|]. split; apply clamp_range.
  - exists 1%Q. split; [reflexivity|]. split; cbn; split; discriminate.
Qed.

(** X2: the count stored is the input itself when it lies between 1 and 4,
    a fraction included (nothing is rounded); it is 1 for an input below 1
    and for an input that is not a number, and 4 for an input above 4. *)
Theorem onNumberOfImagesChange_value (s : State) :
  numberOfImages (snd (fst (onNumberOfImagesChange None s))) = 1%Q
  /\ (forall q : Q,
        let stored :=
          numberOfImages (snd (fst (onNumberOfImagesChange (Some q) s))) in
        ((1 <= q)%Q -> (q < 4)%Q -> stored = q)
        /\ ((1 <= q <= 4)%Q -> (stored == q)%Q)
        /\ ((q < 1)%Q -> stored = 1%Q)
        /\ ((4 <= q)%Q -> stored = 4%Q))
  /\ numberOfImages
       (snd (fst (onNumberOfImagesChange (Some (5 # 2)) s))) = (5 # 2)%Q.
Proof.
  split; [reflexivity|]. split; [|reflexivity].
  intros q stored. subst stored. cbn. unfold mathMax, mathMin.
  assert (Hlow : (1 <= q)%Q -> (q < 4)%Q ->
                 (if Qle_bool 1 (if Qle_bool 4 q then 4%Q else q)
                  then (if Qle_bool 4 q then 4%Q else q) else 1%Q) = q).
  { intros H1 H4.
    destruct (Qle_bool 4 q) eqn:E4.
    - apply Qle_bool_iff in E4. exfalso. apply (Qlt_not_le _ _ H4 E4).
    - apply Qle_bool_iff in H1. rewrite H1. reflexivity. }
  split; [exact Hlow|]. split; [|split].
  - intros [H1 H4]. destruct (Qle_bool 4 q) eqn:E4.
    + apply Qle_bool_iff in E4. cbn. apply Qle_antisym; assumption.
    + apply Qle_bool_iff in H1. rewrite H1. reflexivity.
  - intros H1. destruct (Qle_bool 4 q) eqn:E4.
    + apply Qle_bool_iff in E4. exfalso.
      apply (Qlt_not_le _ _ H1). apply Qle_trans with 4%Q; [discriminate|exact E4].
    + destruct (Qle_bool 1 q) eqn:E1; [|reflexivity].
      apply Qle_bool_iff in E1. exfalso. apply (Qlt_not_le _ _ H1 E1).
  - intros H4. apply Qle_bool_iff in H4. rewrite H4. reflexivity.
Qed.

(** ** The other handlers during a batch *)

Lemma handle_keeps_queue (h : Handler) (s : State) :
  isLoading s = true -> sameButCountAndZipFlag s (handle h s).
Proof.
  intros Hbusy. unfold sameButCountAndZipFlag.
  destruct h as [v | img p i | | p zip | ]; cbn [handle].
  - destruct v; cbn; repeat split.
  - unfold downloadImage. destruct (negb (JS.truthy img)); cbn; repeat split.
  - destruct (isZipping s) eqn:Hz.
    + rewrite (zip_start_refused s Hz). cbn. repeat split.
    + rewrite (zip_start_accepted s Hz). cbn. repeat split.
  - rewrite zip_resume. cbn. repeat split.
  - rewrite start_refused by (left; exact Hbusy). cbn. repeat split.
Qed.

(** X3: while the busy flag is set, no sequence of calls of the other
    methods of the component (the count handler, the single download, the
    two stretches of the archive export) and of [generateImages] itself
    writes the prompt text, the options other than the image count, the
    Result Store, the busy flag or a queue counter. *)
Theorem handlers_keep_queue (hs : list Handler) (s : State) :
  isLoading s = true ->
  sameButCountAndZipFlag s (handleAll hs s)
  /\ isLoading (handleAll hs s) = true
  /\ results (handleAll hs s) = results s
  /\ completedQueueCount (handleAll hs s) = completedQueueCount s.
Proof.
  intros Hbusy.
  assert (H : sameButCountAndZipFlag s (handleAll hs s)).
  { unfold handleAll. revert s Hbusy.
    induction hs as [|h hs IH]; intros s Hbusy; [cbn; repeat split|].
    cbn [fold_left].
    pose proof (handle_keeps_queue h s Hbusy) as Hh.
    assert (Hbusy' : isLoading (handle h s) = true).
    { destruct Hh as (_ & _ & _ & Hl & _). rewrite Hl. exact Hbusy. }
    pose proof (IH (handle h s) Hbusy') as Hrest.
    unfold sameButCountAndZipFlag in *.
    destruct Hh as (A1 & A2 & A3 & A4 & A5 & A6 & A7 & A8 & A9).
    destruct Hrest as (B1 & B2 & B3 & B4 & B5 & B6 & B7 & B8 & B9).
    repeat split; congruence. }
  split; [exact H|].
  destruct H as (_ & _ & Hr & Hl & _ & _ & _ & Hc & _).
  repeat split; congruence.
Qed.

Lemma handlers_keep_queue_mid_batch :
  sameButCountAndZipFlag midBatchState
    (handleAll [GenerateImagesAgain; NumberOfImagesChange (Some (9 # 1));
                DownloadAllAsZipStart; GenerateImagesAgain;
                DownloadAllAsZipResume packagingFails []]
       midBatchState)
  /\ isLoading
       (handleAll [GenerateImagesAgain; NumberOfImagesChange (Some (9 # 1));
                   DownloadAllAsZipStart; GenerateImagesAgain;
                   DownloadAllAsZipResume packagingFails []]
          midBatchState) = true
  /\ results
       (handleAll [GenerateImagesAgain; NumberOfImagesChange (Some (9 # 1));
                   DownloadAllAsZipStart; GenerateImagesAgain;
                   DownloadAllAsZipResume packagingFails []]
          midBatchState) = results midBatchState
  /\ completedQueueCount
       (handleAll [GenerateImagesAgain; NumberOfImagesChange (Some (9 # 1));
                   DownloadAllAsZipStart; GenerateImagesAgain;
                   DownloadAllAsZipResume packagingFails []]
          midBatchState) = completedQueueCount midBatchState.
Proof.
  apply (handlers_keep_queue
           [GenerateImagesAgain; NumberOfImagesChange (Some (9 # 1));
            DownloadAllAsZipStart; GenerateImagesAgain;
            DownloadAllAsZipResume packagingFails []]
           midBatchState).
  reflexivity.
Defined.

(** ** Successful images and the archive *)

Lemma existsb_false_filter {A} (f : A -> bool) (l : list A) :
  existsb f l = false -> List.filter f l = [].
Proof.
  induction l as [|x l IH]; [reflexivity|]. cbn.
  destruct (f x); [discriminate | exact IH].
Qed.

Lemma zip_flag_round (s : State) :
  isZipping s = false -> set_isZipping false (set_isZipping true s) = s.
Proof. destruct s. cbn. intros ->. reflexivity. Qed.

(** X4: when no entry of the Result Store is a success with at least one
    image ([hasSuccessfulImages] is false), there is no eligible image, the
    archive [downloadAllAsZip] builds is empty, and the export still asks
    for the package and saves it (an archive without files) when the
    packaging works; the component is left as it was. *)
Theorem nothing_to_archive (p : Packaging) (s : State) :
  hasSuccessfulImages s = false ->
  isZipping s = false ->
  eligibleImages (results s) = []
  /\ buildZip (results s) = []
  /\ downloadAllAsZip p (fun t => t) s
     = (Normal tt, s, ZipGenerateAsync [] :: archiveReport p [])
  /\ (forall content,
        generateAsync p [] = Normal content ->
        saveAs p content "generated_images.zip" = Normal tt ->
        archiveReport p [] = [Saved content "generated_images.zip"]).
Proof.
  intros Hnone Hflag. unfold hasSuccessfulImages in Hnone.
  apply existsb_false_filter in Hnone.
  assert (Hzip : buildZip (results s) = [])
    by (unfold buildZip; rewrite Hnone; reflexivity).
  split; [unfold eligibleImages; rewrite Hnone; reflexivity|].
  split; [exact Hzip|]. split.
  - unfold downloadAllAsZip.
    rewrite (zip_start_accepted s Hflag), zip_resume, Hzip.
    rewrite (zip_flag_round s Hflag). reflexivity.
  - intros content Hgen Hsave. unfold archiveReport.
    rewrite Hgen, Hsave. reflexivity.
Qed.

Lemma nothing_to_archive_failed_batch :
  eligibleImages (results failedState) = []
  /\ buildZip (results failedState) = []
  /\ downloadAllAsZip packagingWorks (fun t => t) failedState
     = (Normal tt, failedState,
        ZipGenerateAsync [] :: archiveReport packagingWorks [])
  /\ (forall content,
        generateAsync packagingWorks [] = Normal content ->
        saveAs packagingWorks content "generated_images.zip" = Normal tt ->
        archiveReport packagingWorks []
        = [Saved content "generated_images.zip"]).
Proof.
  apply (nothing_to_archive packagingWorks failedState); reflexivity.
Defined.

(** ** The loop, whatever happens around it *)

Section Shape.

Variable w : World.
Variable s0 : State.

Let pts := promptsToProcess (prompts s0).
Let N := length pts.
Let loc := frameOf s0.

Lemma loop_shape (d : nat) :
  forall (i n fuel : nat) (s : State),
    i + d = N ->
    2 * d <= fuel ->
    exists r, drive fuel w n (loopHead loc i s) = Some r /\ loopShape s0 i r.
Proof.
  induction d as [|d IH]; intros i n fuel s Hid Hfuel.
  - rewrite (loopHead_out loc i s) by (cbn; fold pts N; lia).
    rewrite drive_finished. eexists; split; [reflexivity|].
    unfold loopShape; fold pts; cbn [final effects suspensions outcome].
    rewrite drop_ge by (fold N; lia).
    repeat split. constructor.
  - assert (Hi : i < N) by lia.
    destruct (lookup_lt_is_Some_2 pts i Hi) as [p Hp].
    assert (Hnth : nth i pts "" = p) by (rewrite nth_lookup, Hp; reflexivity).
    rewrite (loopHead_in loc i s) by (cbn; fold pts N; lia).
    cbn [frameOf framePrompts loc]. fold pts. fold loc.
    pose proof (requestAt_requestOf s0 i) as Hreq.
    fold loc pts in Hreq. rewrite Hnth in Hreq. rewrite Hnth, Hreq.
    destruct fuel as [|fuel]; [lia|].
    set (s1 := set_currentPromptIndex (i + 1) s).
    set (answer := generateImage w i (requestOf s0 p)).
    set (s2 := afterSettle i p answer (meanwhile w n s1)).
    assert (Hin1 : inLoop s0 (AwaitGenerate loc i p (requestOf s0 p), s1)).
    { unfold inLoop; cbn [fst snd]. fold pts. repeat split. exact Hp. }
    destruct (Nat.lt_ge_cases (i + 1) N) as [Hmore | Hlast].
    + destruct fuel as [|fuel]; [lia|].
      destruct (IH (i + 1) (S (S n)) fuel (meanwhile w (S n) s2))
        as (r & Hr & Hshape); try lia.
      eexists; split.
      * apply drive_pending. cbn [resume]. fold answer.
        rewrite (resumeGenerate_pause loc i p answer)
          by (cbn; fold pts N; lia).
        fold s2. apply drive_pending. cbn [resume]. unfold resumeDelay.
        exact Hr.
      * unfold loopShape in Hshape |- *; fold pts in Hshape |- *;
          cbn [final effects suspensions outcome app].
        destruct Hshape as (S1 & S2 & S3 & S4).
        repeat split; try assumption.
        -- rewrite S1, (drop_S pts p i Hp).
           replace (i + 1) with (S i) by lia.
           destruct (lookup_lt_is_Some_2 pts (S i) ltac:(fold N; lia))
             as [q Hq].
           rewrite (drop_S pts q (S i) Hq). reflexivity.
        -- constructor; [exact Hin1|]. constructor; [|exact S4].
           unfold inLoop; cbn [fst snd]. fold pts N. split; [reflexivity | lia].
    + destruct (IH (i + 1) (S n) fuel s2) as (r & Hr & Hshape); try lia.
      eexists; split.
      * apply drive_pending. cbn [resume]. fold answer.
        rewrite (resumeGenerate_last loc i p answer)
          by (cbn; fold pts N; lia).
        fold s2. exact Hr.
      * unfold loopShape in Hshape |- *; fold pts in Hshape |- *;
          cbn [final effects suspensions outcome app].
        destruct Hshape as (S1 & S2 & S3 & S4).
        assert (Hnil : suspensions r = []).
        { rewrite (loopHead_out loc (i + 1) s2) in Hr
            by (cbn; fold pts N; lia).
          rewrite drive_finished in Hr. injection Hr as <-. reflexivity. }
        repeat split; try assumption.
        -- rewrite S1, (drop_S pts p i Hp).
           replace (i + 1) with (S i) by lia.
           rewrite drop_ge by (fold N; lia). reflexivity.
        -- rewrite Hnil. constructor; [exact Hin1 | constructor].
Qed.

End Shape.

(** Every accepted call ends, with the same requests, whatever the other
    handlers do meanwhile. *)
Lemma batch_shape (w : World) (s : State) :
  isLoading s = false ->
  JS.truthy (JS.trim (prompts s)) = true ->
  exists r, generateImages w s = Some r /\ loopShape s 0 r.
Proof.
  intros Hbusy Htext. unfold generateImages.
  rewrite (start_accepted s Hbusy Htext).
  apply (loop_shape w s (length (promptsToProcess (prompts s)))); lia.
Qed.

Lemma paced_length (reqs : list Request) :
  length (paced reqs) = 2 * length reqs - 1.
Proof.
  induction reqs as [|req [|req' rest] IH]; [reflexivity | reflexivity |].
  cbn [paced length] in *. lia.
Qed.

Lemma paced_last (reqs : list Request) :
  last (paced reqs) = option_map CallGenerateImage (last reqs).
Proof.
  induction reqs as [|req [|req' rest] IH]; [reflexivity | reflexivity |].
  cbn [paced] in *. cbn [last] in *. exact IH.
Qed.

Lemma paced_requests (reqs : list Request) : requestsOf (paced reqs) = reqs.
Proof.
  induction reqs as [|req [|req' rest] IH]; [reflexivity | reflexivity |].
  cbn [paced requestsOf] in *. rewrite IH. reflexivity.
Qed.

Lemma last_of_map {A B} (f : A -> B) (l : list A) :
  last (map f l) = option_map f (last l).
Proof.
  induction l as [|x [|y l] IH]; [reflexivity | reflexivity |].
  cbn [map] in *. rewrite !last_cons_cons. exact IH.
Qed.

(** X5: every accepted call of [generateImages] comes to its end, does not
    throw and clears the busy flag, whatever the client answers and whatever
    other handlers do to the signals meanwhile.  Its effects are the
    requests of the prompts in batch order with one pause of 1000 ms between
    two consecutive requests: 2N - 1 effects for N prompts, the last one a
    request, so no pause follows the last prompt. *)
Theorem generateImages_paced (w : World) (s : State) :
  isLoading s = false ->
  JS.truthy (JS.trim (prompts s)) = true ->
  exists r,
    generateImages w s = Some r
    /\ outcome r = Normal tt
    /\ isLoading (final r) = false
    /\ effects r = paced (map (requestOf s) (promptsToProcess (prompts s)))
    /\ requestsOf (effects r) = map (requestOf s) (promptsToProcess (prompts s))
    /\ length (effects r) = 2 * length (promptsToProcess (prompts s)) - 1
    /\ last (effects r)
       = option_map (fun p => CallGenerateImage (requestOf s p))
           (last (promptsToProcess (prompts s))).
Proof.
  intros Hbusy Htext.
  destruct (batch_shape w s Hbusy Htext) as (r & Hr & He & Ho & Hl & _).
  exists r. rewrite drop_0 in He.
  repeat split; try assumption.
  - rewrite He. apply paced_requests.
  - rewrite He, paced_length, length_map. reflexivity.
  - rewrite He, paced_last, last_of_map.
    destruct (last (promptsToProcess (prompts s))); reflexivity.
Qed.

Lemma generateImages_paced_hostile :
  exists r,
    generateImages hostileWorld paintedState = Some r
    /\ outcome r = Normal tt
    /\ isLoading (final r) = false
    /\ effects r
       = paced (map (requestOf paintedState)
                  (promptsToProcess (prompts paintedState)))
    /\ requestsOf (effects r)
       = map (requestOf paintedState) (promptsToProcess (prompts paintedState))
    /\ length (effects r)
       = 2 * length (promptsToProcess (prompts paintedState)) - 1
    /\ last (effects r)
       = option_map (fun p => CallGenerateImage (requestOf paintedState p))
           (last (promptsToProcess (prompts paintedState))).
Proof.
  apply (generateImages_paced hostileWorld paintedState); reflexivity.
Defined.

(** X6: at every suspension on a request, [currentPromptIndex] is the
    1-based position of the prompt whose request is pending, and that
    request is the one built from this prompt and the options read when the
    batch started; a pause is only awaited behind a prompt that is not the
    last.  This holds whatever other handlers do meanwhile. *)
Theorem currentPromptIndex_in_flight (w : World) (s : State) :
  isLoading s = false ->
  JS.truthy (JS.trim (prompts s)) = true ->
  exists r,
    generateImages w s = Some r
    /\ Forall (inLoop s) (suspensions r).
Proof.
  intros Hbusy Htext.
  destruct (batch_shape w s Hbusy Htext) as (r & Hr & _ & _ & _ & Hin).
  exists r. split; assumption.
Qed.

Lemma currentPromptIndex_in_flight_hostile :
  exists r,
    generateImages hostileWorld catDogState = Some r
    /\ Forall (inLoop catDogState) (suspensions r).
Proof.
  apply (currentPromptIndex_in_flight hostileWorld catDogState); reflexivity.
Defined.

(** ** The Result Store during and after a batch *)

Lemma storeAfter_lookup_lt (ans : nat -> string -> Completion (list string))
    (pts : list string) (k i : nat) (p : string) :
  pts !! i = Some p -> i < k ->
  storeAfter ans pts k !! i = Some (settled p (ans i p)).
Proof.
  intros Hp Hik. unfold storeAfter.
  pose proof (lookup_lt_Some _ _ _ Hp) as Hi.
  rewrite lookup_app_l by (rewrite length_imap, length_take; lia).
  rewrite list_lookup_imap, lookup_take_lt, Hp by exact Hik. reflexivity.
Qed.

Lemma storeAfter_lookup_ge (ans : nat -> string -> Completion (list string))
    (pts : list string) (k i : nat) (p : string) :
  pts !! i = Some p -> k <= i ->
  storeAfter ans pts k !! i = Some (mkResult p loading None None).
Proof.
  intros Hp Hik. unfold storeAfter.
  pose proof (lookup_lt_Some _ _ _ Hp) as Hi.
  rewrite lookup_app_r by (rewrite length_imap, length_take; lia).
  rewrite length_imap, length_take, Nat.min_l by lia.
  rewrite list_lookup_fmap, lookup_drop.
  replace (k + (i - k)) with i by lia. rewrite Hp. reflexivity.
Qed.

Lemma settled_isSettled (p : string) (a : Completion (list string)) :
  isSettled (settled p a) = true.
Proof. destruct a; reflexivity. Qed.

(** X7: when a batch is over, the Result Store has one entry per prompt
    and none of them is still loading: each is a success with its images and
    no error text, or an error with its text and no images.  The entry of a
    prompt whose request resolved holds the raw prompt and exactly the
    images the client returned. *)
Theorem batch_settles_every_entry (w : World) (s : State) :
  quiet w ->
  isLoading s = false ->
  JS.truthy (JS.trim (prompts s)) = true ->
  exists r,
    generateImages w s = Some r
    /\ length (results (final r)) = length (promptsToProcess (prompts s))
    /\ Forall (fun e => isSettled e = true) (results (final r))
    /\ (forall i p imageB64s,
          promptsToProcess (prompts s) !! i = Some p ->
          generateImage w i (requestOf s p) = Normal imageB64s ->
          results (final r) !! i
          = Some (mkResult p success (Some imageB64s) None)).
Proof.
  intros Hquiet Hbusy Htext.
  destruct (batch_run w s Hquiet Hbusy Htext) as (r & Hr & Hloop).
  exists r. split; [exact Hr|].
  destruct Hloop as (_ & _ & _ & Hstore & _).
  rewrite Hstore. split; [apply storeAfter_length|]. split.
  - rewrite storeAfter_all. apply Forall_forall. intros e He.
    apply elem_of_lookup_imap in He as (i & p & -> & _).
    apply settled_isSettled.
  - intros i p imgs Hp Hans.
    rewrite (storeAfter_lookup _ _ i p Hp). unfold answers.
    rewrite Hans. reflexivity.
Qed.

Lemma batch_settles_cat_dog :
  exists r,
    generateImages catDogWorld catDogState = Some r
    /\ length (results (final r))
       = length (promptsToProcess (prompts catDogState))
    /\ Forall (fun e => isSettled e = true) (results (final r))
    /\ (forall i p imageB64s,
          promptsToProcess (prompts catDogState) !! i = Some p ->
          generateImage catDogWorld i (requestOf catDogState p)
          = Normal imageB64s ->
          results (final r) !! i
          = Some (mkResult p success (Some imageB64s) None)).
Proof.
  apply (batch_settles_every_entry catDogWorld catDogState).
  - exact quiet_catDogWorld.
  - reflexivity.
  - reflexivity.
Defined.

(** X8: an entry never changes once its prompt has settled.  At every
    suspension of a batch the entries of the prompts counted as completed
    already are what they are when the batch is over, and every other entry
    is a loading entry with its raw prompt. *)
Theorem settled_entries_stay (w : World) (s : State) :
  quiet w ->
  isLoading s = false ->
  JS.truthy (JS.trim (prompts s)) = true ->
  exists r,
    generateImages w s = Some r
    /\ Forall (fun obs =>
                 forall i p,
                   promptsToProcess (prompts s) !! i = Some p ->
                   (i < completedQueueCount (snd obs) ->
                    results (snd obs) !! i = results (final r) !! i)
                   /\ (completedQueueCount (snd obs) <= i ->
                       results (snd obs) !! i
                       = Some (mkResult p loading None None)))
         (suspensions r).
Proof.
  intros Hquiet Hbusy Htext.
  destruct (batch_run w s Hquiet Hbusy Htext) as (r & Hr & Hloop).
  exists r. split; [exact Hr|].
  destruct Hloop as (_ & _ & _ & Hstore & _ & _ & _ & _ & Hsteps & _).
  eapply Forall_impl; [exact Hsteps|].
  intros obs Hobs i p Hp. unfold storeInStep in Hobs. rewrite Hobs, Hstore.
  split; intros Hi.
  - rewrite (storeAfter_lookup_lt _ _ _ i p Hp Hi).
    rewrite (storeAfter_lookup _ _ i p Hp). reflexivity.
  - apply (storeAfter_lookup_ge _ _ _ i p Hp Hi).
Qed.

Lemma settled_entries_stay_cat_dog :
  exists r,
    generateImages catDogWorld catDogState = Some r
    /\ Forall (fun obs =>
                 forall i p,
                   promptsToProcess (prompts catDogState) !! i = Some p ->
                   (i < completedQueueCount (snd obs) ->
                    results (snd obs) !! i = results (final r) !! i)
                   /\ (completedQueueCount (snd obs) <= i ->
                       results (snd obs) !! i
                       = Some (mkResult p loading None None)))
         (suspensions r).
Proof.
  apply (settled_entries_stay catDogWorld catDogState).
  - exact quiet_catDogWorld.
  - reflexivity.
  - reflexivity.
Defined.

(** X9: before the first request has settled, the Result Store already
    holds one loading entry per prompt, in batch order, in place of whatever
    it held before; the request of the first prompt is pending, the current
    index is 1, the total is the batch size and nothing is completed. *)
Theorem batch_starts_all_loading (w : World) (s : State) :
  quiet w ->
  isLoading s = false ->
  JS.truthy (JS.trim (prompts s)) = true ->
  exists r obs,
    generateImages w s = Some r
    /\ suspensions r !! 0 = Some obs
    /\ results (snd obs)
       = map (fun p => mkResult p loading None None)
           (promptsToProcess (prompts s))
    /\ isLoading (snd obs) = true
    /\ totalQueueCount (snd obs) = length (promptsToProcess (prompts s))
    /\ completedQueueCount (snd obs) = 0
    /\ currentPromptIndex (snd obs) = 1
    /\ head (effects r)
       = option_map (fun p => CallGenerateImage (requestOf s p))
           (head (promptsToProcess (prompts s))).
Proof.
  intros Hquiet Hbusy Htext.
  destruct (batch_run w s Hquiet Hbusy Htext) as (r & Hr & Hloop).
  destruct (batch_shape w s Hbusy Htext) as (r' & Hr' & He & _ & _ & Hin).
  rewrite Hr in Hr'. injection Hr' as <-.
  pose proof (promptsToProcess_nonempty (prompts s) Htext) as HN.
  destruct Hloop as (_ & _ & _ & _ & _ & _ & _ & Hmid & Hsteps & Hlen & Hcount).
  destruct (lookup_lt_is_Some_2 (suspensions r) 0 ltac:(lia)) as [obs Hobs].
  exists r, obs. split; [exact Hr|]. split; [exact Hobs|].
  pose proof (Hcount 0 obs Hobs) as Hc. cbn in Hc.
  pose proof (list_elem_of_lookup_2 _ _ _ Hobs) as Hel.
  rewrite Forall_forall in Hmid, Hsteps, Hin.
  pose proof (Hmid _ Hel) as (Hflag & Htot & _ & Hkind).
  pose proof (Hsteps _ Hel) as Hst. unfold storeInStep in Hst.
  pose proof (Hin _ Hel) as Hloc. unfold inLoop in Hloc.
  rewrite Hc in Hst.
  split; [exact Hst|]. split; [exact Hflag|]. split; [exact Htot|].
  split; [exact Hc|]. split.
  - destruct (fst obs) as [loc i p req | loc i].
    + destruct Hloc as (_ & _ & _ & Hidx). rewrite Hidx. lia.
    + lia.
  - rewrite He, drop_0.
    destruct (promptsToProcess (prompts s)) as [|p rest]; reflexivity.
Qed.

Lemma batch_starts_all_loading_twins :
  exists r obs,
    generateImages catDogWorld twinState = Some r
    /\ suspensions r !! 0 = Some obs
    /\ results (snd obs)
       = map (fun p => mkResult p loading None None)
           (promptsToProcess (prompts twinState))
    /\ isLoading (snd obs) = true
    /\ totalQueueCount (snd obs) = length (promptsToProcess (prompts twinState))
    /\ completedQueueCount (snd obs) = 0
    /\ currentPromptIndex (snd obs) = 1
    /\ head (effects r)
       = option_map (fun p => CallGenerateImage (requestOf twinState p))
           (head (promptsToProcess (prompts twinState))).
Proof.
  apply (batch_starts_all_loading catDogWorld twinState).
  - exact quiet_catDogWorld.
  - reflexivity.
  - reflexivity.
Defined.

(** X10: a batch replaces the Result Store, it does not merge into it: two
    idle components with the same prompt text and options end a batch with
    the same Result Store and the same requests made, whatever results and
    counters each of them showed before. *)
Theorem batch_replaces_store (w : World) (s t : State) :
  quiet w ->
  sameInput s t ->
  isLoading s = false ->
  isLoading t = false ->
  JS.truthy (JS.trim (prompts s)) = true ->
  exists r r',
    generateImages w s = Some r
    /\ generateImages w t = Some r'
    /\ results (final r) = results (final r')
    /\ effects r = effects r'
    /\ totalQueueCount (final r) = totalQueueCount (final r')
    /\ completedQueueCount (final r) = completedQueueCount (final r').
Proof.
  intros Hquiet (Hp & Ha & Hn & Hs & Hm) Hbs Hbt Htext.
  assert (Htext' : JS.truthy (JS.trim (prompts t)) = true)
    by (rewrite <- Hp; exact Htext).
  destruct (batch_run w s Hquiet Hbs Htext) as (r & Hr & Hloop).
  destruct (batch_run w t Hquiet Hbt Htext') as (r' & Hr' & Hloop').
  destruct (batch_shape w s Hbs Htext) as (x & Hx & He & _).
  destruct (batch_shape w t Hbt Htext') as (x' & Hx' & He' & _).
  rewrite Hr in Hx. injection Hx as <-.
  rewrite Hr' in Hx'. injection Hx' as <-.
  exists r, r'. split; [exact Hr|]. split; [exact Hr'|].
  destruct Hloop as (_ & T1 & C1 & S1 & _).
  destruct Hloop' as (_ & T2 & C2 & S2 & _).
  assert (Hreq : requestOf s = requestOf t)
    by (unfold requestOf; rewrite Ha, Hn, Hs, Hm; reflexivity).
  repeat split.
  - rewrite S1, S2. unfold answers. rewrite Hp, Hreq. reflexivity.
  - rewrite He, He', Hp, Hreq. reflexivity.
  - rewrite T1, T2, Hp. reflexivity.
  - rewrite C1, C2, Hp. reflexivity.
Qed.

Lemma batch_replaces_store_twins :
  exists r r',
    generateImages catDogWorld twinState = Some r
    /\ generateImages catDogWorld catDogState = Some r'
    /\ results (final r) = results (final r')
    /\ effects r = effects r'
    /\ totalQueueCount (final r) = totalQueueCount (final r')
    /\ completedQueueCount (final r) = completedQueueCount (final r').
Proof.
  apply (batch_replaces_store catDogWorld twinState catDogState).
  - exact quiet_catDogWorld.
  - repeat split.
  - reflexivity.
  - reflexivity.
  - reflexivity.
Defined.

(** X11: a failure stays with its prompt.  The entry a batch ends with at
    position [i] depends on the answer to the request of prompt [i] alone:
    two clients that answer this request alike leave the same entry there,
    however they answer the other prompts. *)
Theorem entry_depends_on_own_answer (w w' : World) (s : State) (i : nat)
    (p : string) :
  quiet w -> quiet w' ->
  isLoading s = false ->
  JS.truthy (JS.trim (prompts s)) = true ->
  promptsToProcess (prompts s) !! i = Some p ->
  generateImage w i (requestOf s p) = generateImage w' i (requestOf s p) ->
  exists r r',
    generateImages w s = Some r
    /\ generateImages w' s = Some r'
    /\ results (final r) !! i = results (final r') !! i
    /\ results (final r) !! i
       = Some (settled p (generateImage w i (requestOf s p))).
Proof.
  intros Hq Hq' Hbusy Htext Hp Hsame.
  destruct (batch_run w s Hq Hbusy Htext) as (r & Hr & Hloop).
  destruct (batch_run w' s Hq' Hbusy Htext) as (r' & Hr' & Hloop').
  exists r, r'. split; [exact Hr|]. split; [exact Hr'|].
  destruct Hloop as (_ & _ & _ & S1 & _).
  destruct Hloop' as (_ & _ & _ & S2 & _).
  rewrite S1, S2, !(storeAfter_lookup _ _ i p Hp). unfold answers.
  rewrite Hsame. split; reflexivity.
Qed.

Lemma quiet_noQuotaWorld : quiet noQuotaWorld.
Proof. intros n s. repeat split. Qed.

Lemma entry_depends_on_own_answer_dog :
  exists r r',
    generateImages catDogWorld catDogState = Some r
    /\ generateImages noQuotaWorld catDogState = Some r'
    /\ results (final r) !! 1 = results (final r') !! 1
    /\ results (final r) !! 1
       = Some (settled "a dog"
                 (generateImage catDogWorld 1 (requestOf catDogState "a dog"))).
Proof.
  apply (entry_depends_on_own_answer catDogWorld noQuotaWorld catDogState 1
           "a dog").
  - exact quiet_catDogWorld.
  - exact quiet_noQuotaWorld.
  - reflexivity.
  - reflexivity.
  - reflexivity.
  - reflexivity.
Defined.

(** ** Progress during a batch *)

(** X12: in a batch of fewer than [2 ^ 32] prompts (the bound of an array
    length) the progress percentage, computed in binary64, is a number at
    or above 0 and below 100 at every suspension and never goes down from
    one suspension to a later one; when the batch is over it is the double
    100. *)
Theorem progress_during_batch (w : World) (s : State) :
  quiet w ->
  isLoading s = false ->
  JS.truthy (JS.trim (prompts s)) = true ->
  (Z.of_nat (length (promptsToProcess (prompts s))) < 2 ^ 32)%Z ->
  exists r,
    generateImages w s = Some r
    /\ Forall (fun obs =>
                 exists v,
                   Binary64.toQ (Binary64.progressPercentage (snd obs)) = Some v
                   /\ (0 <= v)%Q /\ (v < 100)%Q)
         (suspensions r)
    /\ (forall j j' obs obs',
          j <= j' ->
          suspensions r !! j = Some obs ->
          suspensions r !! j' = Some obs' ->
          exists v v',
            Binary64.toQ (Binary64.progressPercentage (snd obs)) = Some v
            /\ Binary64.toQ (Binary64.progressPercentage (snd obs')) = Some v'
            /\ (v <= v')%Q)
    /\ Binary64.progressPercentage (final r) = Binary64.ofNat 100.
Proof.
  intros Hquiet Hbusy Htext Hbound.
  destruct (batch_run w s Hquiet Hbusy Htext) as (r & Hr & Hloop).
  pose proof (promptsToProcess_nonempty (prompts s) Htext) as HN.
  exists r. split; [exact Hr|].
  destruct Hloop as (_ & Htot & Hdone & _ & _ & _ & _ & Hmid & _ & _ & Hcount).
  split; [|split].
  - eapply Forall_impl; [exact Hmid|].
    intros obs (_ & Ht & Hlt & _).
    destruct (progressPercentage_spec (snd obs))
      as (v & Hv & H0 & _ & _ & _ & Hlt100 & _); [lia | lia | lia |].
    exists v. split; [exact Hv|]. split; [exact H0|]. apply Hlt100. lia.
  - intros j j' obs obs' Hj Hobs Hobs'.
    rewrite Forall_forall in Hmid.
    pose proof (Hmid _ (list_elem_of_lookup_2 _ _ _ Hobs))
      as (_ & Ht & Hlt & _).
    pose proof (Hmid _ (list_elem_of_lookup_2 _ _ _ Hobs'))
      as (_ & Ht' & Hlt' & _).
    destruct (progressPercentage_spec (snd obs))
      as (v & Hv & _ & _ & _ & Hup & _); [lia | lia | lia |].
    destruct (progressPercentage_spec (snd obs'))
      as (v' & Hv' & _ & _ & Hlo' & _); [lia | lia | lia |].
    exists v, v'. split; [exact Hv|]. split; [exact Hv'|].
    pose proof (Hcount j obs Hobs) as Hc.
    pose proof (Hcount j' obs' Hobs') as Hc'.
    assert (Hle : completedQueueCount (snd obs)
                  <= completedQueueCount (snd obs')).
    { rewrite Hc, Hc'. cbn [Nat.add]. apply Nat.Div0.div_le_mono. lia. }
    destruct (Nat.eq_dec (completedQueueCount (snd obs))
                (completedQueueCount (snd obs'))) as [E|NE].
    + rewrite (progressPercentage_counters (snd obs) (snd obs') E) in Hv
        by congruence.
      rewrite Hv in Hv'. injection Hv' as <-. apply Qle_refl.
    + pose proof (percentage_gap (completedQueueCount (snd obs))
                    (completedQueueCount (snd obs')) (totalQueueCount (snd obs))
                    ltac:(lia) ltac:(lia) ltac:(lia)) as Hgap.
      rewrite Ht' in Hlo'. rewrite <- Ht in Hlo'. lra.
  - destruct (progressPercentage_spec (final r))
      as (v & _ & _ & _ & _ & _ & _ & Heq); [lia | lia | lia |].
    apply Heq. lia.
Qed.

Lemma progress_during_cat_dog :
  exists r,
    generateImages catDogWorld catDogState = Some r
    /\ Forall (fun obs =>
                 exists v,
                   Binary64.toQ (Binary64.progressPercentage (snd obs)) = Some v
                   /\ (0 <= v)%Q /\ (v < 100)%Q)
         (suspensions r)
    /\ (forall j j' obs obs',
          j <= j' ->
          suspensions r !! j = Some obs ->
          suspensions r !! j' = Some obs' ->
          exists v v',
            Binary64.toQ (Binary64.progressPercentage (snd obs)) = Some v
            /\ Binary64.toQ (Binary64.progressPercentage (snd obs')) = Some v'
            /\ (v <= v')%Q)
    /\ Binary64.progressPercentage (final r) = Binary64.ofNat 100.
Proof.
  apply (progress_during_batch catDogWorld catDogState).
  - exact quiet_catDogWorld.
  - reflexivity.
  - reflexivity.
  - vm_compute. reflexivity.
Defined.

Lemma isSuccessful_settled (p : string) (a : Completion (list string)) :
  isSuccessful (settled p a) = true
  <-> exists imageB64s, a = Normal imageB64s /\ imageB64s <> [].
Proof.
  destruct a as [imgs | v]; cbn.
  - destruct imgs as [|img imgs]; cbn; split.
    + discriminate.
    + intros (x & [= <-] & Hx). contradiction.
    + intros _. eexists; split; [reflexivity | discriminate].
    + reflexivity.
  - split; [discriminate|]. intros (x & Hx & _). discriminate.
Qed.

(** X13: when a batch is over, [hasSuccessfulImages] is true exactly when
    the request of some prompt resolved with at least one image; a batch
    whose requests all failed, or resolved with no image, leaves it
    false. *)
Theorem hasSuccessfulImages_after_batch (w : World) (s : State) :
  quiet w ->
  isLoading s = false ->
  JS.truthy (JS.trim (prompts s)) = true ->
  exists r,
    generateImages w s = Some r
    /\ (hasSuccessfulImages (final r) = true
        <-> exists i p imageB64s,
              promptsToProcess (prompts s) !! i = Some p
              /\ generateImage w i (requestOf s p) = Normal imageB64s
              /\ imageB64s <> []).
Proof.
  intros Hquiet Hbusy Htext.
  destruct (batch_run w s Hquiet Hbusy Htext) as (r & Hr & Hloop).
  exists r. split; [exact Hr|].
  destruct Hloop as (_ & _ & _ & Hstore & _).
  unfold hasSuccessfulImages. rewrite Hstore, storeAfter_all, existsb_exists.
  split.
  - intros (e & He & Hok).
    apply list_elem_of_In, elem_of_lookup_imap in He as (i & p & -> & Hp).
    apply isSuccessful_settled in Hok as (imgs & Ha & Hne).
    exists i, p, imgs. repeat split; assumption.
  - intros (i & p & imgs & Hp & Ha & Hne).
    exists (settled p (answers w s i p)). split.
    + apply list_elem_of_In, elem_of_lookup_imap. exists i, p. split;
        [reflexivity | exact Hp].
    + apply isSuccessful_settled. exists imgs. split; assumption.
Qed.

Lemma hasSuccessfulImages_after_cat_dog :
  exists r,
    generateImages catDogWorld catDogState = Some r
    /\ (hasSuccessfulImages (final r) = true
        <-> exists i p imageB64s,
              promptsToProcess (prompts catDogState) !! i = Some p
              /\ generateImage catDogWorld i (requestOf catDogState p)
                 = Normal imageB64s
              /\ imageB64s <> []).
Proof.
  apply (hasSuccessfulImages_after_batch catDogWorld catDogState).
  - exact quiet_catDogWorld.
  - reflexivity.
  - reflexivity.
Defined.

(** ** The prompt splitter and the guard *)

Lemma promptsToProcess_blank (raw : string) :
  JS.trim raw = "" -> promptsToProcess raw = [].
Proof. intros H. unfold promptsToProcess. rewrite H. reflexivity. Qed.

(** X14: the prompt list is empty exactly when the text trims to nothing,
    so the guard of [generateImages] and its splitter agree: an idle
    component refuses a call exactly when there is no prompt to process,
    and every accepted batch has at least one prompt. *)
Theorem guard_agrees_with_splitter (s : State) :
  (promptsToProcess (prompts s) = [] <-> JS.trim (prompts s) = "")
  /\ (isLoading s = false ->
      (fst (fst (generateImages_start s)) = Normal Finished
       <-> promptsToProcess (prompts s) = [])).
Proof.
  assert (Hiff : forall raw, promptsToProcess raw = [] <-> JS.trim raw = "").
  { intros raw. split; [|apply promptsToProcess_blank].
    intros Hnil. destruct (JS.trim raw) eqn:E; [reflexivity|].
    pose proof (promptsToProcess_nonempty raw) as H.
    rewrite E, Hnil in H. specialize (H eq_refl). cbn in H. lia. }
  split; [apply Hiff|].
  intros Hbusy. split.
  - intros Hfin. apply Hiff.
    destruct (JS.trim (prompts s)) eqn:E; [reflexivity|].
    assert (Htext : JS.truthy (JS.trim (prompts s)) = true)
      by (rewrite E; reflexivity).
    rewrite (start_accepted s Hbusy Htext) in Hfin.
    rewrite loopHead_in in Hfin
      by (cbn; apply promptsToProcess_nonempty; exact Htext).
    discriminate Hfin.
  - intros Hnil. apply Hiff in Hnil.
    rewrite start_refused; [reflexivity|].
    right. unfold JS.truthy. rewrite Hnil. reflexivity.
Qed.

Lemma string_app_assoc (a b c : string) :
  ((a ++ b) ++ c = a ++ (b ++ c))%string.
Proof. induction a as [|x a IH]; cbn; [reflexivity | rewrite IH; reflexivity]. Qed.

Lemma string_app_length (a b : string) :
  String.length (a ++ b) = String.length a + String.length b.
Proof. induction a as [|x a IH]; cbn; [reflexivity | rewrite IH; reflexivity]. Qed.

Lemma trimStart_length (s : string) :
  String.length (JS.trimStart s) <= String.length s.
Proof.
  induction s as [|c s IH]; cbn; [lia|].
  destruct (JS.isWhiteSpace c); cbn; lia.
Qed.

Lemma trimEnd_length (s : string) :
  String.length (JS.trimEnd s) <= String.length s.
Proof.
  induction s as [|c s IH]; cbn; [lia|].
  destruct (JS.isWhiteSpace c && JS.isEmpty (JS.trimEnd s)); cbn; lia.
Qed.

Lemma trimStart_same_length (s : string) :
  String.length (JS.trimStart s) = String.length s -> JS.trimStart s = s.
Proof.
  destruct s as [|c s]; cbn; [reflexivity|].
  destruct (JS.isWhiteSpace c); [|reflexivity].
  pose proof (trimStart_length s). lia.
Qed.

Lemma trim_fixed (s : string) :
  JS.trim s = s -> JS.trimStart s = s /\ JS.trimEnd s = s.
Proof.
  intros H. unfold JS.trim in H.
  assert (Hs : JS.trimStart s = s).
  { apply trimStart_same_length.
    pose proof (trimStart_length s).
    pose proof (trimEnd_length (JS.trimStart s)) as Hle.
    rewrite H in Hle. lia. }
  split; [exact Hs|]. rewrite Hs in H. exact H.
Qed.

Lemma trimStart_app (a b : string) :
  a <> "" -> JS.trimStart a = a -> JS.trimStart (a ++ b) = (a ++ b)%string.
Proof.
  destruct a as [|c a]; [contradiction|]. intros _. cbn.
  destruct (JS.isWhiteSpace c); [|reflexivity].
  intros H. pose proof (trimStart_length a) as Hle.
  rewrite H in Hle. cbn in Hle. lia.
Qed.

Lemma trimEnd_app (a b : string) :
  JS.trimEnd b <> "" -> JS.trimEnd (a ++ b) = (a ++ JS.trimEnd b)%string.
Proof.
  intros Hb. induction a as [|c a IH]; cbn; [reflexivity|].
  rewrite IH.
  assert (He : JS.isEmpty (a ++ JS.trimEnd b) = false).
  { destruct a; cbn; [|reflexivity].
    destruct (JS.trimEnd b); [contradiction | reflexivity]. }
  rewrite He, andb_false_r. reflexivity.
Qed.

Lemma split_no_separator (sep : ascii) (s : string) :
  allChars (fun c => negb (Ascii.eqb c sep)) s = true -> JS.split sep s = [s].
Proof.
  induction s as [|c s IH]; cbn; [reflexivity|].
  intros H. apply andb_prop in H as [Hc Hs].
  apply negb_true_iff in Hc. rewrite Hc, (IH Hs). reflexivity.
Qed.

Lemma split_app (sep : ascii) (a b : string) :
  allChars (fun c => negb (Ascii.eqb c sep)) a = true ->
  JS.split sep (a ++ String sep b) = a :: JS.split sep b.
Proof.
  induction a as [|c a IH]; cbn.
  - intros _. rewrite Ascii.eqb_refl. reflexivity.
  - intros H. apply andb_prop in H as [Hc Ha].
    apply negb_true_iff in Hc. rewrite Hc, (IH Ha). reflexivity.
Qed.

Lemma cleanLine_spec (line : string) :
  cleanLine line = true ->
  line <> "" /\ JS.trim line = line
  /\ allChars (fun c => negb (Ascii.eqb c JS.LF)) line = true.
Proof.
  unfold cleanLine. intros H.
  apply andb_prop in H as [H Hlf]. apply andb_prop in H as [Hne Htrim].
  apply String.eqb_eq in Htrim.
  repeat split; try assumption.
  intros ->. discriminate Hne.
Qed.

Lemma joinLines_cons (line next : string) (rest : list string) :
  joinLines (line :: next :: rest)
  = (line ++ String JS.LF (joinLines (next :: rest)))%string.
Proof. reflexivity. Qed.

Lemma joinLines_clean (lines : list string) :
  Forall (fun l => cleanLine l = true) lines ->
  lines <> [] ->
  joinLines lines <> ""
  /\ JS.trimStart (joinLines lines) = joinLines lines
  /\ JS.trimEnd (joinLines lines) = joinLines lines
  /\ JS.split JS.LF (joinLines lines) = lines.
Proof.
  induction lines as [|line [|next rest] IH]; intros Hall Hne;
    [contradiction | |].
  - apply Forall_inv in Hall.
    destruct (cleanLine_spec line Hall) as (Hl & Ht & Hlf).
    destruct (trim_fixed line Ht) as (Hs & He).
    cbn [joinLines]. repeat split; try assumption.
    apply split_no_separator. exact Hlf.
  - pose proof (Forall_inv Hall) as Hline.
    apply Forall_inv_tail in Hall.
    destruct (cleanLine_spec line Hline) as (Hl & Ht & Hlf).
    destruct (trim_fixed line Ht) as (Hs & He).
    destruct (IH Hall ltac:(discriminate)) as (J1 & J2 & J3 & J4).
    rewrite joinLines_cons.
    set (J := joinLines (next :: rest)) in *.
    repeat split.
    + destruct line; [contradiction | discriminate].
    + apply trimStart_app; assumption.
    + change (line ++ String JS.LF J)%string
        with (line ++ (String JS.LF "" ++ J))%string.
      rewrite <- string_app_assoc, trimEnd_app, J3; [reflexivity|].
      rewrite J3. exact J1.
    + rewrite (split_app JS.LF line J Hlf), J4. reflexivity.
Qed.

(** X15: prompts typed one per line come through the splitter as they
    are.  For lines that are not empty, have nothing to trim at either end
    and hold no line break, the prompt list of the lines joined by newlines
    is the list of these lines. *)
Theorem promptsToProcess_join (lines : list string) :
  Forall (fun l => cleanLine l = true) lines ->
  promptsToProcess (joinLines lines) = lines.
Proof.
  intros Hall. destruct lines as [|line rest] eqn:E; [reflexivity|].
  rewrite <- E in *.
  destruct (joinLines_clean lines Hall ltac:(subst; discriminate))
    as (_ & Hs & He & Hsplit).
  unfold promptsToProcess, JS.trim. rewrite Hs, He, Hsplit.
  clear E Hs He Hsplit.
  induction Hall as [|l ls Hl _ IH]; [reflexivity|].
  destruct (cleanLine_spec l Hl) as (Hne & Ht & _).
  cbn [List.filter]. fold (JS.trim l). rewrite Ht.
  destruct l; [contradiction|]. cbn. rewrite IH. reflexivity.
Qed.

Lemma promptsToProcess_join_three :
  promptsToProcess
    (joinLines ["a cat, sitting"; "A Dog"; ("tab" ++ tab ++ "inside")%string])
  = ["a cat, sitting"; "A Dog"; ("tab" ++ tab ++ "inside")%string].
Proof.
  apply (promptsToProcess_join
           ["a cat, sitting"; "A Dog"; ("tab" ++ tab ++ "inside")%string]).
  repeat constructor.
Defined.

(** ** File names *)

Lemma allChars_app (f : ascii -> bool) (a b : string) :
  allChars f (a ++ b) = allChars f a && allChars f b.
Proof.
  induction a as [|c a IH]; cbn; [reflexivity|].
  rewrite IH, andb_assoc. reflexivity.
Qed.

Lemma allChars_take (f : ascii -> bool) (n : nat) (s : string) :
  allChars f s = true -> allChars f (Spec.take n s) = true.
Proof.
  revert s. induction n as [|n IH]; intros [|c s]; cbn; try reflexivity.
  intros H. apply andb_prop in H as [Hc Hs]. rewrite Hc, (IH s Hs). reflexivity.
Qed.

Lemma take_length (n : nat) (s : string) : String.length (Spec.take n s) <= n.
Proof.
  revert s. induction n as [|n IH]; intros [|c s]; cbn; try lia.
  specialize (IH s). lia.
Qed.

Lemma strip_keeps (keep : ascii -> bool) (s : string) :
  allChars keep (Spec.strip keep s) = true.
Proof.
  induction s as [|c s IH]; cbn; [reflexivity|].
  destruct (keep c) eqn:Hc; cbn; [rewrite Hc|]; exact IH.
Qed.

Lemma kept_char_safe (c : ascii) :
  Spec.keepWhitespace c = true -> JS.isWhiteSpace c = false ->
  safeChar c = true.
Proof.
  destruct c as [[] [] [] [] [] [] [] []]; intros H1 H2;
    try reflexivity; discriminate.
Qed.

Lemma collapse_safe (s : string) :
  allChars Spec.keepWhitespace s = true ->
  allChars safeChar (Spec.collapse s) = true.
Proof.
  induction s as [|c s IH]; [reflexivity|].
  intros H. cbn [allChars] in H. apply andb_prop in H as [Hc Hs].
  specialize (IH Hs). cbn [Spec.collapse].
  destruct (JS.isWhiteSpace c) eqn:Hw.
  - destruct s as [|c' s']; [reflexivity|].
    destruct (JS.isWhiteSpace c'); [exact IH|].
    cbn [allChars]. rewrite IH. reflexivity.
  - cbn [allChars]. rewrite (kept_char_safe c Hc Hw), IH. reflexivity.
Qed.

Lemma digits_of_uint (d : Decimal.uint) :
  allChars isDigit (NilEmpty.string_of_uint d) = true.
Proof. induction d; cbn; try reflexivity; exact IHd. Qed.

Lemma allChars_impl (f g : ascii -> bool) (s : string) :
  (forall c, f c = true -> g c = true) ->
  allChars f s = true -> allChars g s = true.
Proof.
  intros Hfg. induction s as [|c s IH]; cbn; [reflexivity|].
  intros H. apply andb_prop in H as [Hc Hs].
  rewrite (Hfg c Hc), (IH Hs). reflexivity.
Qed.

Lemma digit_safe (c : ascii) : isDigit c = true -> safeChar c = true.
Proof.
  destruct c as [[] [] [] [] [] [] [] []]; intros H;
    try reflexivity; discriminate.
Qed.

Lemma sanitizedPrompt_safe (p : string) :
  allChars safeChar (sanitizedPrompt p) = true
  /\ String.length (sanitizedPrompt p) <= 50.
Proof.
  rewrite sanitizedPrompt_pipeline. split; [|apply take_length].
  apply allChars_take, collapse_safe, strip_keeps.
Qed.

Lemma nameBase_safe (p : string) :
  allChars safeChar (nameBase p) = true
  /\ String.length (nameBase p) <= 50
  /\ nameBase p <> "".
Proof.
  unfold nameBase. destruct (sanitizedPrompt_safe p) as [Hs Hl].
  destruct (sanitizedPrompt p) as [|c t] eqn:E; cbn [JS.truthy JS.isEmpty negb].
  - repeat split; [cbn; lia | discriminate].
  - repeat split; [exact Hs | exact Hl | discriminate].
Qed.

(** X16: every file name the component derives is the sanitized prompt, or
    [generated_image] when that is empty, then an underscore, the index plus
    one in decimal and [.jpeg].  The part before the index is never empty
    and at most 50 code units long, and the whole name is made of a-z, 0-9,
    underscore, hyphen and dot only: no slash, no space, no upper case. *)
Theorem filename_is_safe (p : string) (i : nat) :
  filename p i
  = (nameBase p ++ "_" ++ JS.numberToString (i + 1) ++ ".jpeg")%string
  /\ nameBase p <> ""
  /\ String.length (nameBase p) <= 50
  /\ String.length (sanitizedPrompt p) <= 50
  /\ allChars safeChar (filename p i) = true.
Proof.
  destruct (nameBase_safe p) as (Hs & Hl & Hne).
  split; [reflexivity|]. split; [exact Hne|]. split; [exact Hl|].
  split; [apply sanitizedPrompt_safe|].
  change (filename p i)
    with (nameBase p ++ "_" ++ JS.numberToString (i + 1) ++ ".jpeg")%string.
  rewrite !allChars_app, Hs. cbn [andb].
  unfold JS.numberToString.
  rewrite (allChars_impl isDigit safeChar _ digit_safe (digits_of_uint _)).
  reflexivity.
Qed.

Lemma string_app_inv_head (a x y : string) :
  (a ++ x = a ++ y)%string -> x = y.
Proof.
  induction a as [|c a IH]; cbn; [trivial|].
  intros [= H]. exact (IH H).
Qed.

Lemma string_app_inv_tail (x y t : string) :
  (x ++ t = y ++ t)%string -> x = y.
Proof.
  intros H.
  assert (Hlen : String.length x = String.length y).
  { apply (f_equal String.length) in H.
    rewrite !string_app_length in H. lia. }
  revert y H Hlen. induction x as [|c x IH]; intros [|d y] H Hlen;
    cbn in Hlen; try lia; [reflexivity|].
  cbn in H. injection H as -> H. rewrite (IH y H); [reflexivity | lia].
Qed.

Lemma digit_not_underscore (c : ascii) :
  isDigit c = true -> Ascii.eqb c "_" = false.
Proof.
  destruct c as [[] [] [] [] [] [] [] []]; intros H;
    try reflexivity; discriminate.
Qed.

(** The last underscore of a name splits it in one way only. *)
Lemma split_at_last_underscore (a b n m : string) :
  allChars isDigit n = true -> allChars isDigit m = true ->
  (a ++ String "_" n = b ++ String "_" m)%string -> a = b /\ n = m.
Proof.
  intros Hn Hm. revert b.
  assert (Hno : forall x y z : string,
             allChars isDigit z = true -> z <> (x ++ String "_" y)%string).
  { intros x y z Hz ->. rewrite allChars_app in Hz.
    apply andb_prop in Hz as [_ Hz]. cbn in Hz. discriminate Hz. }
  induction a as [|c a IH]; intros [|d b] H; cbn in H.
  - injection H as ->. split; reflexivity.
  - injection H as <- H. exfalso. exact (Hno b m n Hn H).
  - injection H as -> H. exfalso. exact (Hno a n m Hm (eq_sym H)).
  - injection H as -> H. destruct (IH b H) as [-> ->]. split; reflexivity.
Qed.

Lemma numberToString_inj (i j : nat) :
  JS.numberToString i = JS.numberToString j -> i = j.
Proof.
  unfold JS.numberToString. intros H.
  apply (f_equal NilEmpty.uint_of_string) in H.
  rewrite !NilEmpty.usu in H. injection H as H.
  apply (f_equal Nat.of_uint) in H.
  rewrite !DecimalNat.Unsigned.of_to in H. exact H.
Qed.

Lemma filename_split (p q : string) (i j : nat) :
  filename p i = filename q j -> nameBase p = nameBase q /\ i = j.
Proof.
  intros H.
  change (filename p i)
    with (nameBase p ++ "_" ++ JS.numberToString (i + 1) ++ ".jpeg")%string
    in H.
  change (filename q j)
    with (nameBase q ++ "_" ++ JS.numberToString (j + 1) ++ ".jpeg")%string
    in H.
  change ("_" ++ JS.numberToString (i + 1) ++ ".jpeg")%string
    with (String "_" (JS.numberToString (i + 1)) ++ ".jpeg")%string in H.
  change ("_" ++ JS.numberToString (j + 1) ++ ".jpeg")%string
    with (String "_" (JS.numberToString (j + 1)) ++ ".jpeg")%string in H.
  rewrite <- !string_app_assoc in H.
  apply string_app_inv_tail in H.
  apply split_at_last_underscore in H as [Hb Hn];
    try apply digits_of_uint.
  apply numberToString_inj in Hn. split; [exact Hb | lia].
Qed.

(** X17: two images get the same file name exactly when their prompts have
    the same sanitized text (or both sanitize to nothing) and the images
    have the same index within their prompt; so the images of one prompt
    never share a name. *)
Theorem filename_collisions (p q : string) (i j : nat) :
  (filename p i = filename q j <-> nameBase p = nameBase q /\ i = j)
  /\ (filename p i = filename p j -> i = j).
Proof.
  split; [split|].
  - apply filename_split.
  - intros [Hb ->]. unfold filename. fold (nameBase p) (nameBase q).
    rewrite Hb. reflexivity.
  - intros H. apply (filename_split p p i j H).
Qed.

(** ** What the archive holds *)

Lemma zipFile_In (name data : string) (zip : Zip) (file : string * string) :
  In file (zipFile name data zip) -> file = (name, data) \/ In file zip.
Proof.
  induction zip as [|[n d] zip IH]; cbn.
  - intros [H | []]. left. symmetry. exact H.
  - destruct (String.eqb n name); cbn.
    + intros [H | H]; [left; symmetry; exact H | right; right; exact H].
    + intros [H | H]; [right; left; exact H|].
      destruct (IH H) as [E | E]; [left; exact E | right; right; exact E].
Qed.

Lemma zipFile_names (name data : string) (zip : Zip) (x : string) :
  In x (map fst (zipFile name data zip)) <-> x = name \/ In x (map fst zip).
Proof.
  induction zip as [|[n d] zip IH]; cbn.
  - split; [intros [H | []]; left; symmetry; exact H|].
    intros [H | []]. left. symmetry. exact H.
  - destruct (String.eqb_spec n name) as [-> | Hne]; cbn.
    + intuition congruence.
    + rewrite IH. intuition congruence.
Qed.

Lemma zipFile_fresh (name data : string) (zip : Zip) :
  ~ In name (map fst zip) -> zipFile name data zip = zip ++ [(name, data)].
Proof.
  induction zip as [|[n d] zip IH]; cbn; [reflexivity|].
  intros H. destruct (String.eqb_spec n name) as [-> | Hne].
  - exfalso. apply H. left. reflexivity.
  - rewrite IH; [reflexivity|]. intros Hin. apply H. right. exact Hin.
Qed.

Lemma zipFile_NoDup (name data : string) (zip : Zip) :
  List.NoDup (map fst zip) -> List.NoDup (map fst (zipFile name data zip)).
Proof.
  induction zip as [|[n d] zip IH]; cbn; intros H.
  - constructor; [intros [] | constructor].
  - apply List.NoDup_cons_iff in H as [Hn Hrest].
    destruct (String.eqb_spec n name) as [-> | Hne]; cbn.
    + constructor; assumption.
    + constructor; [|exact (IH Hrest)].
      rewrite zipFile_names. intros [E | E]; [congruence | contradiction].
Qed.

Lemma addImage_cases (p : string) (i : nat) (img : string) (zip : Zip) :
  (isEligible img = false /\ addImage p i img zip = zip)
  \/ (exists data,
        isEligible img = true /\ base64Data img = Some data
        /\ JS.truthy data = true
        /\ addImage p i img zip = zipFile (filename p i) data zip).
Proof.
  unfold addImage, isEligible.
  destruct (base64Data img) as [data|]; [|left; split; reflexivity].
  destruct (JS.truthy data) eqn:Ht; cbn.
  - right. exists data. repeat split. exact Ht.
  - left. split; reflexivity.
Qed.

Lemma addImages_keeps_all (p : string) (imgs : list string) :
  forall (i : nat) (zip : Zip),
    (forall x j, In x (map fst zip) -> i <= j -> x <> filename p j) ->
    length (addImages p i imgs zip)
    = length zip + length (List.filter isEligible imgs)
    /\ (forall x, In x (map fst (addImages p i imgs zip)) ->
                  In x (map fst zip) \/ exists j, x = filename p j).
Proof.
  induction imgs as [|img imgs IH]; intros i zip Hfresh; cbn [addImages].
  - split; [cbn; lia | intros x Hx; left; exact Hx].
  - destruct (addImage_cases p i img zip)
      as [(Hel & ->) | (data & Hel & _ & _ & ->)];
      cbn [List.filter]; rewrite Hel.
    + destruct (IH (i + 1) zip) as (Hlen & Hnames).
      { intros x j Hx Hj. apply Hfresh; [exact Hx | lia]. }
      split; [exact Hlen | exact Hnames].
    + rewrite zipFile_fresh
        by (intros Hin; exact (Hfresh _ i Hin (Nat.le_refl i) eq_refl)).
      destruct (IH (i + 1) (zip ++ [(filename p i, data)])) as (Hlen & Hnames).
      { intros x j Hx Hj. rewrite map_app, in_app_iff in Hx.
        destruct Hx as [Hx | [<- | []]].
        - apply Hfresh; [exact Hx | lia].
        - cbn. intros E.
          destruct (filename_split p p i j E) as (_ & Hij). lia. }
      split.
      * rewrite Hlen, length_app. cbn. lia.
      * intros x Hx. destruct (Hnames x Hx) as [Hin | Hj]; [|right; exact Hj].
        rewrite map_app, in_app_iff in Hin.
        destruct Hin as [Hin | [<- | []]]; [left; exact Hin|].
        right. exists i. reflexivity.
Qed.

Lemma distinctStrings_NoDup (l : list string) :
  distinctStrings l = true -> List.NoDup l.
Proof.
  induction l as [|x l IH]; cbn; intros H; [constructor|].
  apply andb_prop in H as [Hx Hl]. constructor; [|exact (IH Hl)].
  intros Hin. apply negb_true_iff in Hx.
  assert (Hex : existsb (String.eqb x) l = true).
  { apply existsb_exists. exists x. split; [exact Hin | apply String.eqb_refl]. }
  congruence.
Qed.

Lemma addResults_keep_all (rs : list ImageGenerationResult) :
  forall zip : Zip,
    List.NoDup (map (fun r => nameBase (prompt r)) rs) ->
    (forall x r j, In x (map fst zip) -> In r rs ->
                   x <> filename (prompt r) j) ->
    length (fold_left addResult rs zip)
    = length zip
      + length (flat_map
                  (fun r => List.filter isEligible (default [] (images r)))
                  rs).
Proof.
  induction rs as [|r rs IH]; intros zip Hnodup Hfresh; cbn; [lia|].
  apply List.NoDup_cons_iff in Hnodup as [Hr Hnodup].
  rewrite length_app.
  assert (Hstep :
    length (addResult zip r)
    = length zip + length (List.filter isEligible (default [] (images r)))
    /\ (forall x, In x (map fst (addResult zip r)) ->
                  In x (map fst zip) \/ exists j, x = filename (prompt r) j)).
  { unfold addResult. destruct (images r) as [imgs|]; cbn [default].
    - apply addImages_keeps_all. intros x j Hx _.
      apply (Hfresh x r j Hx). left. reflexivity.
    - split; [cbn; lia | intros x Hx; left; exact Hx]. }
  destruct Hstep as (Hlen & Hnames).
  rewrite (IH (addResult zip r) Hnodup); [lia|].
  intros x r' j Hx Hr'.
  destruct (Hnames x Hx) as [Hold | (k & ->)].
  - apply (Hfresh x r' j Hold). right. exact Hr'.
  - intros E. apply filename_split in E as (Hb & _).
    apply Hr. rewrite Hb. apply in_map_iff.
    exists r'. split; [reflexivity | exact Hr'].
Qed.

(** X18: when the successful entries of the Result Store have pairwise
    different name bases (sanitized prompts), no image is lost in the
    archive: it holds exactly one file per eligible image. *)
Theorem archive_keeps_every_image (rs : list ImageGenerationResult) :
  distinctStrings (successfulBases rs) = true ->
  length (buildZip rs) = length (eligibleImages rs).
Proof.
  intros H. apply distinctStrings_NoDup in H.
  unfold buildZip, eligibleImages.
  rewrite (addResults_keep_all (List.filter isSuccessful rs) []).
  - reflexivity.
  - exact H.
  - intros x r j [].
Qed.

Lemma archive_keeps_gallery :
  length (buildZip galleryStore) = length (eligibleImages galleryStore).
Proof.
  apply (archive_keeps_every_image galleryStore). reflexivity.
Defined.

Lemma zipFile_Forall (P : string * string -> Prop) (name data : string)
    (zip : Zip) :
  P (name, data) -> Forall P zip -> Forall P (zipFile name data zip).
Proof.
  intros Hnew Hzip. apply Forall_forall. intros file Hin.
  apply list_elem_of_In, zipFile_In in Hin as [-> | Hin]; [exact Hnew|].
  rewrite Forall_forall in Hzip. apply Hzip, list_elem_of_In. exact Hin.
Qed.

Lemma addImages_fromStore (rs : list ImageGenerationResult)
    (r : ImageGenerationResult) (all imgs : list string) :
  In r rs -> isSuccessful r = true -> images r = Some all ->
  forall (pre : list string) (zip : Zip),
    all = pre ++ imgs ->
    Forall (fromStore rs) zip ->
    Forall (fromStore rs) (addImages (prompt r) (length pre) imgs zip).
Proof.
  intros Hin Hok Hall.
  induction imgs as [|img imgs IH]; intros pre zip Hsplit Hzip;
    cbn [addImages]; [exact Hzip|].
  replace (length pre + 1) with (length (pre ++ [img]))
    by (rewrite length_app; reflexivity).
  apply IH; [rewrite <- app_assoc; exact Hsplit|].
  destruct (addImage_cases (prompt r) (length pre) img zip)
    as [(_ & ->) | (data & _ & Hdata & Htruthy & ->)]; [exact Hzip|].
  apply zipFile_Forall; [|exact Hzip].
  exists r, all, (length pre), img. cbn [fst snd].
  repeat split; try assumption.
  rewrite Hsplit. apply list_lookup_middle. reflexivity.
Qed.

Lemma addResults_fromStore (rs : list ImageGenerationResult)
    (todo : list ImageGenerationResult) :
  (forall r, In r todo -> In r rs /\ isSuccessful r = true) ->
  forall zip : Zip,
    Forall (fromStore rs) zip ->
    Forall (fromStore rs) (fold_left addResult todo zip).
Proof.
  induction todo as [|r todo IH]; intros Hall zip Hzip; cbn; [exact Hzip|].
  apply IH; [intros x Hx; apply Hall; right; exact Hx|].
  destruct (Hall r (or_introl eq_refl)) as [Hin Hok].
  unfold addResult. destruct (images r) as [imgs|] eqn:Himgs; [|exact Hzip].
  apply (addImages_fromStore rs r imgs imgs Hin Hok Himgs []);
    [reflexivity | exact Hzip].
Qed.

Lemma addImages_NoDup (p : string) (imgs : list string) :
  forall (i : nat) (zip : Zip),
    List.NoDup (map fst zip) ->
    List.NoDup (map fst (addImages p i imgs zip)).
Proof.
  induction imgs as [|img imgs IH]; intros i zip H; cbn [addImages];
    [exact H|].
  apply IH.
  destruct (addImage_cases p i img zip) as [(_ & ->) | (data & _ & _ & _ & ->)];
    [exact H | apply zipFile_NoDup; exact H].
Qed.

Lemma addResults_NoDup (todo : list ImageGenerationResult) :
  forall zip : Zip,
    List.NoDup (map fst zip) ->
    List.NoDup (map fst (fold_left addResult todo zip)).
Proof.
  induction todo as [|r todo IH]; intros zip H; cbn; [exact H|].
  apply IH. unfold addResult.
  destruct (images r); [apply addImages_NoDup; exact H | exact H].
Qed.

(** X19: the archive holds nothing but images of the Result Store.  Each
    of its files is the non-empty data part (the text between the first and
    the second comma) of image [i] of an entry that is a success with
    images, stored under that entry's file name for index [i]; no file name
    occurs twice; and there are never more files than eligible images. *)
Theorem archive_comes_from_store (rs : list ImageGenerationResult) :
  Forall (fromStore rs) (buildZip rs)
  /\ List.NoDup (map fst (buildZip rs))
  /\ length (buildZip rs) <= length (eligibleImages rs).
Proof.
  split; [|split].
  - unfold buildZip. apply addResults_fromStore; [|constructor].
    intros r Hr. apply filter_In in Hr. exact Hr.
  - unfold buildZip. apply addResults_NoDup. constructor.
  - apply buildZip_length.
Qed.
